(** * Routing, validation, approval and ranking core of the multi-source agent

    Shallow embedding of
    - [src/tools/bashTool.js]     (command validator, pending-command store),
    - [src/agent/agent.js]        (keyword fallback router),
    - [src/tools/documentTool.js] (document relevance ranking),
    and the properties of these functions.

    JavaScript strings are sequences of UTF-16 code units; they are modelled
    as lists of code units ([N]).  The built-ins the sources call
    ([String.prototype.includes], [split], [RegExp.prototype.test],
    [Array.prototype.sort], [Map]) are modelled in module [JS]. *)

From Stdlib Require Import String Ascii DecimalString.
From Stdlib Require DecimalZ.
From Stdlib Require Import List Bool Arith ZArith NArith Lia.
From Stdlib Require Import Sorted Permutation.
Import ListNotations.

Set Implicit Arguments.

(* ================================================================== *)
(** * Definitions *)
(* ================================================================== *)

(** ** JavaScript built-ins used by the sources *)

Module JS.

(** A string value: its UTF-16 code units. *)
Definition jsstring := list N.

(** An ASCII literal of the source as a string value. *)
Definition str (s : string) : jsstring :=
  map N_of_ascii (list_ascii_of_string s).

(** One code unit given by an ASCII character. *)
Definition chr (c : ascii) : N := N_of_ascii c.

Definition code_eq_dec : forall a b : N, {a = b} + {a <> b} := N.eq_dec.
Definition jsstring_eq_dec : forall a b : jsstring, {a = b} + {a <> b} :=
  list_eq_dec N.eq_dec.

Fixpoint eqs (a b : jsstring) : bool :=
  match a, b with
  | [], [] => true
  | c :: a', d :: b' => (c =? d)%N && eqs a' b'
  | _, _ => false
  end.

(** [s.startsWith(w)] *)
Fixpoint startsWith (s w : jsstring) {struct w} : bool :=
  match w, s with
  | [], _ => true
  | c :: w', d :: s' => (c =? d)%N && startsWith s' w'
  | _ :: _, [] => false
  end.

(** [s.includes(w)]: [w] occurs in [s] at some index. *)
Fixpoint includes (s w : jsstring) : bool :=
  startsWith s w ||
  match s with
  | [] => false
  | _ :: s' => includes s' w
  end.

(** [s.endsWith(w)] *)
Definition endsWith (s w : jsstring) : bool :=
  (length w <=? length s) && eqs (skipn (length s - length w) s) w.

(** [s.substring(0, n)] for [0 <= n]. *)
Definition substring0 (n : nat) (s : jsstring) : jsstring := firstn n s.

(** [s.substr(start, len)] for [0 <= start], [0 <= len]. *)
Definition substr (start len : nat) (s : jsstring) : jsstring :=
  firstn len (skipn start s).

(** [parts.join(sep)] *)
Fixpoint join (sep : jsstring) (parts : list jsstring) : jsstring :=
  match parts with
  | [] => []
  | [p] => p
  | p :: rest => p ++ sep ++ join sep rest
  end.

(** Template-literal conversion of an integral Number below 10^21:
    its decimal digits, with a leading minus sign when negative. *)
Definition numberToString (z : Z) : jsstring :=
  str (NilEmpty.string_of_int (Z.to_int z)).

(** *** Regular expressions

    The patterns of the sources are sequences of single-character atoms,
    each taken once or under [*] or [+], optionally anchored by [^].
    No pattern carries a flag. *)

Inductive atom : Type :=
| Chr (c : N)        (* a literal character *)
| Space              (* \s *)
| Dot                (* .  *)
| NotChr (c : N).    (* [^c] *)

Inductive item : Type :=
| Once (a : atom)
| Star (a : atom)    (* a* *)
| Plus (a : atom).   (* a+ *)

Record RegExp : Type := mkRegExp {
  anchored : bool;      (* the pattern starts with ^ *)
  body : list item
}.

(** LineTerminator code points. *)
Definition isLineTerminator (c : N) : bool :=
  ((c =? 10) || (c =? 13) || (c =? 8232) || (c =? 8233))%N.

(** The characters of [\s]: WhiteSpace and LineTerminator. *)
Definition isWhiteSpace (c : N) : bool :=
  ((c =? 9) || (c =? 10) || (c =? 11) || (c =? 12) || (c =? 13) ||
   (c =? 32) || (c =? 160) || (c =? 5760) ||
   ((8192 <=? c) && (c <=? 8202)) ||
   (c =? 8232) || (c =? 8233) || (c =? 8239) || (c =? 8287) ||
   (c =? 12288) || (c =? 65279))%N.

Definition accepts (a : atom) (c : N) : bool :=
  match a with
  | Chr d => (c =? d)%N
  | Space => isWhiteSpace c
  | Dot => negb (isLineTerminator c)
  | NotChr d => negb (c =? d)%N
  end.

(** Greedy iteration of an atom followed by the continuation [k]: the
    longest run is tried first, then shorter ones.  The result is the
    number of code units consumed. *)
Fixpoint matchStar (a : atom) (k : jsstring -> option nat) (s : jsstring)
  : option nat :=
  match s with
  | c :: s' =>
      if accepts a c then
        match matchStar a k s' with
        | Some n => Some (S n)
        | None => k s
        end
      else k s
  | [] => k s
  end.

(** Match of a pattern body at the start of [s] (backtracking order of the
    language): [Some n] when the first successful alternative consumes [n]
    code units. *)
Fixpoint matchHere (re : list item) : jsstring -> option nat :=
  match re with
  | [] => fun _ => Some 0
  | Once a :: re' => fun s =>
      match s with
      | c :: s' => if accepts a c then option_map S (matchHere re' s') else None
      | [] => None
      end
  | Star a :: re' => matchStar a (matchHere re')
  | Plus a :: re' => fun s =>
      match s with
      | c :: s' =>
          if accepts a c then option_map S (matchStar a (matchHere re') s')
          else None
      | [] => None
      end
  end.

Definition isSome {A} (o : option A) : bool :=
  match o with Some _ => true | None => false end.

(** A match starting at some index of [s]. *)
Fixpoint search (re : list item) (s : jsstring) : bool :=
  isSome (matchHere re s) ||
  match s with
  | [] => false
  | _ :: s' => search re s'
  end.

(** [pattern.test(s)] *)
Definition test (pattern : RegExp) (s : jsstring) : bool :=
  if anchored pattern then isSome (matchHere (body pattern) s)
  else search (body pattern) s.

(** The source text of a pattern, as [${pattern}] prints it. *)
Definition atomSource (a : atom) : jsstring :=
  match a with
  | Chr c => if (c =? chr "/")%N then str "\/" else [c]
  | Space => str "\s"
  | Dot => str "."
  | NotChr c => str "[^" ++ [c] ++ str "]"
  end.

Definition itemSource (i : item) : jsstring :=
  match i with
  | Once a => atomSource a
  | Star a => atomSource a ++ str "*"
  | Plus a => atomSource a ++ str "+"
  end.

Definition toString (pattern : RegExp) : jsstring :=
  str "/" ++ (if anchored pattern then str "^" else []) ++
  flat_map itemSource (body pattern) ++ str "/".

(** A run of literal characters. *)
Definition chars (s : string) : list item :=
  map (fun c => Once (Chr c)) (str s).

(** The texts a pattern body describes. *)
Inductive Lang : list item -> jsstring -> Prop :=
| Lang_nil : Lang [] []
| Lang_once a c re w :
    accepts a c = true -> Lang re w -> Lang (Once a :: re) (c :: w)
| Lang_star_stop a re w :
    Lang re w -> Lang (Star a :: re) w
| Lang_star_more a c re w :
    accepts a c = true -> Lang (Star a :: re) w -> Lang (Star a :: re) (c :: w)
| Lang_plus a c re w :
    accepts a c = true -> Lang (Star a :: re) w -> Lang (Plus a :: re) (c :: w).

(** *** [String.prototype.split] with a pattern separator

    [splitLoop sep skip piece s]: [s] is the text from the scan index [q]
    on, [piece] the text between the end [p] of the last separator and [q],
    and [skip] the number of code units of a separator match that are still
    to be passed.  A match that is empty at [p] does not split. *)
Fixpoint splitLoop (sep : list item) (skip : nat) (piece s : jsstring)
  : list jsstring :=
  match s with
  | [] => [piece]
  | c :: s' =>
      match skip with
      | S n => splitLoop sep n piece s'
      | O =>
          match matchHere sep s with
          | None => splitLoop sep 0 (piece ++ [c]) s'
          | Some O =>
              match piece with
              | [] => splitLoop sep 0 [c] s'
              | _ :: _ => piece :: splitLoop sep 0 [c] s'
              end
          | Some (S n) => piece :: splitLoop sep n [] s'
          end
      end
  end.

(** [s.split(sep)] for an unanchored pattern [sep], no limit. *)
Definition split (sep : list item) (s : jsstring) : list jsstring :=
  match s with
  | [] => if isSome (matchHere sep []) then [] else [[]]
  | _ :: _ => splitLoop sep 0 [] s
  end.

(** *** [String.prototype.toLowerCase]

    The conversion follows the case tables of Unicode; the functions of the
    sources are parametrised by it.  [toLowerCaseLatin1] is the conversion
    of text written in the Basic Latin and Latin-1 Supplement blocks, on
    which the functions are evaluated. *)
Definition lowerUnit (c : N) : N :=
  if ((65 <=? c) && (c <=? 90))%N then (c + 32)%N
  else if ((192 <=? c) && (c <=? 222) && negb (c =? 215))%N then (c + 32)%N
  else c.

Definition toLowerCaseLatin1 (s : jsstring) : jsstring := map lowerUnit s.

(** *** [Array.prototype.sort] with a comparison function

    The sort is stable: [x] moves behind [y] only when [comparefn x y > 0].
    Elements are inserted from the right, so that an element never passes
    one that compares equal to it. *)
Section Sort.
Variable A : Type.
Variable comparefn : A -> A -> Z.

Fixpoint insert (x : A) (l : list A) : list A :=
  match l with
  | [] => [x]
  | y :: l' => if (0 <? comparefn x y)%Z then y :: insert x l' else x :: l
  end.

Definition sort (l : list A) : list A := fold_right insert [] l.
End Sort.

(** *** [Map] with string keys

    Entries are kept in insertion order, as the iteration of a [Map]
    yields them; [set] on a present key replaces the value in place. *)
Section MapModel.
Variable V : Type.

Definition Map := list (jsstring * V).

Fixpoint get (m : Map) (key : jsstring) : option V :=
  match m with
  | [] => None
  | (k, v) :: m' => if eqs k key then Some v else get m' key
  end.

Definition has (m : Map) (key : jsstring) : bool := isSome (get m key).

Fixpoint set (m : Map) (key : jsstring) (value : V) : Map :=
  match m with
  | [] => [(key, value)]
  | (k, v) :: m' =>
      if eqs k key then (key, value) :: m' else (k, v) :: set m' key value
  end.

Definition delete (m : Map) (key : jsstring) : Map :=
  filter (fun e => negb (eqs (fst e) key)) m.

Definition keys (m : Map) : list jsstring := map fst m.
End MapModel.

(** *** [String.prototype.trim]

    White space and line terminators are removed at both ends. *)
Fixpoint trimStart (s : jsstring) : jsstring :=
  match s with
  | [] => []
  | c :: s' => if isWhiteSpace c then trimStart s' else s
  end.

Definition trimEnd (s : jsstring) : jsstring := rev (trimStart (rev s)).

Definition trim (s : jsstring) : jsstring := trimEnd (trimStart s).

(** On text of the Basic Latin block the conversion to lower case changes
    the letters A to Z only, one code unit at a time. *)
Definition asciiFaithful (toLowerCase : jsstring -> jsstring) : Prop :=
  forall s : jsstring,
    Forall (fun c => (c < 128)%N) s -> toLowerCase s = toLowerCaseLatin1 s.

End JS.

Import JS.

(** ** [src/tools/bashTool.js] *)

Module BashTool.

(** A pattern literal given by its parts. *)
Definition re (parts : list (list item)) : RegExp := mkRegExp false (concat parts).
Definition re_start (parts : list (list item)) : RegExp :=
  mkRegExp true (concat parts).

Definition ws1 : list item := [Plus Space].       (* \s+ *)
Definition ws0 : list item := [Star Space].       (* \s* *)
Definition any0 : list item := [Star Dot].        (* .*  *)

Definition dangerousPatterns : list RegExp :=
  [ re [chars "rm"; ws1; chars "-rf"];
    re [chars "sudo"; ws1];
    re [chars "chmod"; ws1; chars "777"];
    re [chars "chown"; ws1];
    re [chars "passwd"];
    re [chars "useradd"];
    re [chars "userdel"];
    re [chars "groupadd"];
    re [chars "groupdel"];
    re [chars "mount"];
    re [chars "umount"];
    re [chars "fdisk"];
    re [chars "mkfs"];
    re [chars "dd"; ws1; chars "if="];
    re [chars "nc"; ws1];
    re [chars "netcat"];
    re [chars "wget"; ws1; any0; chars "-O"; ws1; chars "/dev/shm"];
    re [chars "curl"; ws1; any0; chars "-o"; ws1; chars "/dev/shm"];
    re [chars ">"; ws0; chars "/etc/"];
    re [chars ">>"; ws0; chars "/etc/"];
    re [chars "cat"; ws1; chars ">"; any0; chars "/etc/"];
    re [chars "echo"; ws1; any0; chars ">"; ws0; chars "/etc/"] ].

Definition safeCommands : list RegExp :=
  [ re_start [chars "curl"; ws1];
    re_start [chars "wget"; ws1];
    re_start [chars "ping"; ws1];
    re_start [chars "nslookup"; ws1];
    re_start [chars "dig"; ws1];
    re_start [chars "date"];
    re_start [chars "uptime"];
    re_start [chars "whoami"];
    re_start [chars "pwd"];
    re_start [chars "ls"; ws1];
    re_start [chars "cat"; ws1];
    re_start [chars "grep"; ws1];
    re_start [chars "head"; ws1];
    re_start [chars "tail"; ws1];
    re_start [chars "wc"; ws1];
    re_start [chars "sort"; ws1];
    re_start [chars "uniq"; ws1];
    re_start [chars "cut"; ws1];
    re_start [chars "awk"; ws1];
    re_start [chars "sed"; ws1];
    re_start [chars "find"; ws1];
    re_start [chars "which"; ws1];
    re_start [chars "whereis"; ws1];
    re_start [chars "ps"; ws1];
    re_start [chars "top"; ws0];
    re_start [chars "df"; ws1];
    re_start [chars "du"; ws1];
    re_start [chars "free"; ws0];
    re_start [chars "uname"; ws0];
    re_start [chars "hostname"];
    re_start [chars "id"; ws0];
    re_start [chars "groups"; ws0];
    re_start [chars "env"; ws0];
    re_start [chars "printenv"; ws0];
    re_start [chars "history"; ws0];
    re_start [chars "echo"; ws1; [Once (NotChr (chr ">"))]];
    re_start [chars "printf"; ws1] ].

(** The object [validateCommand] returns; [reason] is absent when valid. *)
Record Validation : Type := mkValidation {
  isValid : bool;
  reason : option jsstring
}.

Definition dangerousReason (pattern : RegExp) : jsstring :=
  str "Command contains potentially dangerous pattern: " ++ toString pattern.

Definition notSafeReason : jsstring :=
  str "Command not in the list of allowed safe commands".

Definition validateCommand (command : jsstring) : Validation :=
  match find (fun pattern => test pattern command) dangerousPatterns with
  | Some pattern => mkValidation false (Some (dangerousReason pattern))
  | None =>
      let isSafe := existsb (fun pattern => test pattern command) safeCommands in
      if negb isSafe then mkValidation false (Some notSafeReason)
      else mkValidation true None
  end.

(** *** The pending-command store and the methods that use it *)

Record PendingCommand : Type := mkPending {
  command : jsstring;
  description : jsstring;
  timestamp : Z                 (* new Date(), in milliseconds *)
}.

Definition Store := Map PendingCommand.

(** How [execAsync] settles: with the captured streams, or rejected. *)
Inductive ExecResult : Type :=
| ExecOk (stdout stderr : jsstring)
| ExecError (message : jsstring).

(** The JSON texts the methods return, by their fields. *)
Inductive Response : Type :=
| approval_request (commandId command description message : jsstring)
| command_result (success : bool) (command output warnings : jsstring)
| command_rejected (commandId command : jsstring).

(** A method body as the sequence of its accesses to [this.pendingCommands]
    and of its [await]; [Throw m] is [throw new Error(m)]. *)
Inductive Task (R : Type) : Type :=
| Return (r : R)
| Throw (message : jsstring)
| MapGet (id : jsstring) (k : option PendingCommand -> Task R)
| MapSet (id : jsstring) (value : PendingCommand) (k : Task R)
| MapDelete (id : jsstring) (k : Task R)
| AwaitExec (cmd : jsstring) (k : ExecResult -> Task R).

Arguments Return {R} r.
Arguments Throw {R} message.
Arguments MapGet {R} id k.
Arguments MapSet {R} id value k.
Arguments MapDelete {R} id k.
Arguments AwaitExec {R} cmd k.

(** [generateCommandId]: [now] is [Date.now()] and [random36] is
    [Math.random().toString(36)]. *)
Definition generateCommandId (now : Z) (random36 : jsstring) : jsstring :=
  str "cmd_" ++ numberToString now ++ str "_" ++ substr 2 9 random36.

Definition formatApprovalRequest (commandId command description : jsstring)
  : Response :=
  approval_request commandId command description
    (str "Command requires approval:" ++ [10%N] ++ description ++ [10%N] ++
     str "Command: " ++ command ++ [10%N; 10%N] ++
     str "To approve, use: approve " ++ commandId).

(** What [JSON.parse(input)] and the destructuring give. *)
Inductive Input : Type :=
| SyntaxError
| Parsed (command description : jsstring).

(** [_call(input)], with the readings of the clock and of the random
    source it makes. *)
Definition _call (input : Input) (now : Z) (random36 : jsstring) (date : Z)
  : Task Response :=
  match input with
  | SyntaxError =>
      Throw (str "Invalid input format. Expected JSON with command and description.")
  | Parsed command description =>
      let validation := validateCommand command in
      if negb (isValid validation) then
        Throw (str "Command rejected: " ++
               match reason validation with Some r => r | None => str "undefined" end)
      else
        let commandId := generateCommandId now random36 in
        MapSet commandId (mkPending command description date)
          (Return (formatApprovalRequest commandId command description))
  end.

Definition notFoundOrExecuted (commandId : jsstring) : jsstring :=
  str "Command " ++ commandId ++ str " not found or already executed".

Definition notFound (commandId : jsstring) : jsstring :=
  str "Command " ++ commandId ++ str " not found".

Definition executeApprovedCommand (commandId : jsstring) : Task Response :=
  MapGet commandId (fun commandData =>
    match commandData with
    | None => Throw (notFoundOrExecuted commandId)
    | Some data =>
        AwaitExec (command data) (fun settled =>
          match settled with
          | ExecOk stdout stderr =>
              MapDelete commandId
                (Return (command_result true (command data) stdout stderr))
          | ExecError message =>
              MapDelete commandId
                (Throw (str "Command execution failed: " ++ message))
          end)
    end).

Definition rejectCommand (commandId : jsstring) : Task Response :=
  MapGet commandId (fun commandData =>
    match commandData with
    | None => Throw (notFound commandId)
    | Some data =>
        MapDelete commandId
          (Return (command_rejected commandId (command data)))
    end).

(** [getPendingCommands]: the entries in iteration order. *)
Definition getPendingCommands (pendingCommands : Store)
  : list (jsstring * PendingCommand) := pendingCommands.

(** *** Running the methods

    A call runs without interruption up to its [await] and, once
    [execAsync] has settled, from there to its end; other calls may run in
    between.  [Access] records the accesses a call makes to the store. *)

Inductive Access : Type :=
| Got (id : jsstring)
| Put (id : jsstring)
| Deleted (id : jsstring).

Inductive Outcome (R : Type) : Type :=
| Returned (r : R)
| Thrown (message : jsstring).

Arguments Returned {R} r.
Arguments Thrown {R} message.

Inductive Status (R : Type) : Type :=
| Settled (o : Outcome R)
| Suspended (cmd : jsstring) (k : ExecResult -> Task R).

Arguments Settled {R} o.
Arguments Suspended {R} cmd k.

(** One uninterrupted stretch of a call. *)
Fixpoint runSync {R} (t : Task R) (s : Store) : Store * list Access * Status R :=
  match t with
  | Return r => (s, [], Settled (Returned r))
  | Throw m => (s, [], Settled (Thrown m))
  | MapGet id k =>
      let '(s', accesses, st) := runSync (k (get s id)) s in
      (s', Got id :: accesses, st)
  | MapSet id value k =>
      let '(s', accesses, st) := runSync k (set s id value) in
      (s', Put id :: accesses, st)
  | MapDelete id k =>
      let '(s', accesses, st) := runSync k (delete s id) in
      (s', Deleted id :: accesses, st)
  | AwaitExec cmd k => (s, [], Suspended cmd k)
  end.

(** A call that no other call overlaps; [exec] tells how each command
    settles. *)
Fixpoint run {R} (exec : jsstring -> ExecResult) (t : Task R) (s : Store)
  : Store * list Access * Outcome R :=
  match t with
  | Return r => (s, [], Returned r)
  | Throw m => (s, [], Thrown m)
  | MapGet id k =>
      let '(s', accesses, o) := run exec (k (get s id)) s in
      (s', Got id :: accesses, o)
  | MapSet id value k =>
      let '(s', accesses, o) := run exec k (set s id value) in
      (s', Put id :: accesses, o)
  | MapDelete id k =>
      let '(s', accesses, o) := run exec k (delete s id) in
      (s', Deleted id :: accesses, o)
  | AwaitExec cmd k => run exec (k (exec cmd)) s
  end.

(** The calls a client makes, with the readings and the settlement each
    one meets. *)
Inductive Call : Type :=
| Submit (input : Input) (now : Z) (random36 : jsstring) (date : Z)
| Approve (commandId : jsstring) (settled : ExecResult)
| Reject (commandId : jsstring).

Definition perform (c : Call) (s : Store) : Store * Outcome Response :=
  match c with
  | Submit input now random36 date =>
      let '(s', _, o) := run (fun _ => ExecError []) (_call input now random36 date) s in
      (s', o)
  | Approve commandId settled =>
      let '(s', _, o) := run (fun _ => settled) (executeApprovedCommand commandId) s in
      (s', o)
  | Reject commandId =>
      let '(s', _, o) := run (fun _ => ExecError []) (rejectCommand commandId) s in
      (s', o)
  end.

(** Calls made one after the other, each returning before the next. *)
Fixpoint performAll (cs : list Call) (s : Store)
  : Store * list (Outcome Response) :=
  match cs with
  | [] => (s, [])
  | c :: cs' =>
      let '(s1, o) := perform c s in
      let '(s2, os) := performAll cs' s1 in
      (s2, o :: os)
  end.

(** The id a submission hands out. *)
Definition issued (o : Outcome Response) : option jsstring :=
  match o with
  | Returned (approval_request commandId _ _ _) => Some commandId
  | _ => None
  end.

Fixpoint issuedIds (os : list (Outcome Response)) : list jsstring :=
  match os with
  | [] => []
  | o :: os' =>
      match issued o with
      | Some id => id :: issuedIds os'
      | None => issuedIds os'
      end
  end.

(** The id a call may hand out: the one a submission computes. *)
Definition mayIssue (c : Call) (id : jsstring) : Prop :=
  match c with
  | Submit _ now random36 _ => generateCommandId now random36 = id
  | _ => False
  end.

(** The id an approval or a rejection is about. *)
Definition target (c : Call) : option jsstring :=
  match c with
  | Approve commandId _ => Some commandId
  | Reject commandId => Some commandId
  | Submit _ _ _ _ => None
  end.

(** The error of a call on an id that is not pending. *)
Definition NotFound (c : Call) (o : Outcome Response) : Prop :=
  match c with
  | Approve commandId _ => o = Thrown (notFoundOrExecuted commandId)
  | Reject commandId => o = Thrown (notFound commandId)
  | Submit _ _ _ _ => False
  end.

(** How an approved command ends, from the way its execution settled. *)
Definition approvalOutcome (data : PendingCommand) (settled : ExecResult)
  : Outcome Response :=
  match settled with
  | ExecOk stdout stderr =>
      Returned (command_result true (command data) stdout stderr)
  | ExecError message => Thrown (str "Command execution failed: " ++ message)
  end.

(** Overlapping calls: each call is started once, runs to its [await], and
    is resumed when its command has settled. *)
Inductive Thread : Type :=
| Ready (t : Task Response)
| Waiting (cmd : jsstring) (k : ExecResult -> Task Response)
| Finished (o : Outcome Response).

Inductive Event : Type :=
| Invoke (i : nat)
| ExecSettles (i : nat) (settled : ExecResult).

Definition advance (t : Task Response) (s : Store) : Store * Thread :=
  let '(s', _, st) := runSync t s in
  (s', match st with
       | Settled o => Finished o
       | Suspended cmd k => Waiting cmd k
       end).

Fixpoint update (threads : list Thread) (i : nat) (th : Thread) : list Thread :=
  match threads, i with
  | [], _ => []
  | _ :: rest, O => th :: rest
  | t :: rest, S j => t :: update rest j th
  end.

(** [step] is [None] when the event cannot happen in the configuration. *)
Definition step (cfg : Store * list Thread) (e : Event)
  : option (Store * list Thread) :=
  let '(s, threads) := cfg in
  match e with
  | Invoke i =>
      match nth_error threads i with
      | Some (Ready t) =>
          let '(s', th) := advance t s in Some (s', update threads i th)
      | _ => None
      end
  | ExecSettles i settled =>
      match nth_error threads i with
      | Some (Waiting _ k) =>
          let '(s', th) := advance (k settled) s in Some (s', update threads i th)
      | _ => None
      end
  end.

Fixpoint steps (cfg : Store * list Thread) (es : list Event)
  : option (Store * list Thread) :=
  match es with
  | [] => Some cfg
  | e :: es' =>
      match step cfg e with
      | Some cfg' => steps cfg' es'
      | None => None
      end
  end.

(** A sample entry and a store that holds it under the id "cmd_1". *)
Definition date_entry : PendingCommand :=
  mkPending (str "date") (str "get current time") 1700000000000.

Definition one_pending : Store := [(str "cmd_1", date_entry)].

(** Two submissions that meet the same clock reading and the same random
    number. *)
Definition first_submission : Call :=
  Submit (Parsed (str "date") (str "first")) 1700000000123
         (str "0.4fzyo82mvyr") 1700000000123.

Definition second_submission : Call :=
  Submit (Parsed (str "uptime") (str "second")) 1700000000123
         (str "0.4fzyo82mvyr") 1700000000123.

(** Every pending command has passed the validator. *)
Definition allValidated (s : Store) : Prop :=
  Forall (fun entry => isValid (validateCommand (command (snd entry))) = true) s.

(** The id under which a submission is stored, when it is accepted. *)
Definition submissionId (c : Call) : option jsstring :=
  match c with
  | Submit (Parsed command _) now random36 _ =>
      if isValid (validateCommand command)
      then Some (generateCommandId now random36)
      else None
  | _ => None
  end.

End BashTool.

(** ** [src/agent/agent.js]: the keyword fallback *)

Module Agent.

Inductive ToolName : Type :=
| sqlite_database
| document_search
| bash_command.

(** The input handed to the selected tool: a text, or the JSON text of an
    object with the fields [command] and [description]. *)
Inductive ToolInput : Type :=
| Text (s : jsstring)
| CommandJson (command description : jsstring).

(** What [processWithFallback] has decided when it calls the tool. *)
Record Plan : Type := mkPlan {
  toolName : ToolName;
  reasoning : jsstring;
  toolInput : ToolInput
}.

(** "música": the letter u with acute is the code unit 250. *)
Definition musica : jsstring := str "m" ++ [250%N] ++ str "sica".

Section Fallback.
Variable toLowerCase : jsstring -> jsstring.

(** The keyword-based routing of [processWithFallback]. *)
Definition selectTool (lowerQuery : jsstring) : ToolName * jsstring :=
  if includes lowerQuery (str "hora") ||
     includes lowerQuery (str "time") ||
     includes lowerQuery (str "data") ||
     includes lowerQuery (str "date")
  then (bash_command, str "Query about time/date - using bash command")
  else if includes lowerQuery (str "artista") ||
          includes lowerQuery (str "album") ||
          includes lowerQuery musica ||
          includes lowerQuery (str "music") ||
          includes lowerQuery (str "track") ||
          includes lowerQuery (str "venda") ||
          includes lowerQuery (str "sale")
  then (sqlite_database, str "Query about music data - using SQLite database")
  else if includes lowerQuery (str "economia") ||
          includes lowerQuery (str "economics") ||
          includes lowerQuery (str "livro") ||
          includes lowerQuery (str "book") ||
          includes lowerQuery (str "documento") ||
          includes lowerQuery (str "document")
  then (document_search,
        str "Query about economics/documents - using document search")
  else (document_search, str "Defaulting to document search").

(** The [switch] that generates the tool input. *)
Definition generateInput (tool : ToolName) (query lowerQuery : jsstring)
  : ToolInput :=
  match tool with
  | sqlite_database =>
      if includes lowerQuery (str "quantos") ||
         includes lowerQuery (str "how many")
      then Text (str "SELECT COUNT(*) as count FROM Artist")
      else if includes lowerQuery (str "artista") ||
              includes lowerQuery (str "artist")
      then Text (str "SELECT * FROM Artist LIMIT 10")
      else if includes lowerQuery (str "album") ||
              includes lowerQuery (str "album")
      then Text (str "SELECT * FROM Album LIMIT 10")
      else Text (str "SELECT * FROM Artist LIMIT 5")
  | document_search => Text query
  | bash_command =>
      if includes lowerQuery (str "hora") || includes lowerQuery (str "time")
      then CommandJson (str "date") (str "Get current date and time")
      else CommandJson (str "date") (str "Get current date and time")
  end.

(** [processWithFallback(query)] up to the call of the tool. *)
Definition processWithFallback (query : jsstring) : Plan :=
  let lowerQuery := toLowerCase query in
  let '(toolName, reasoning) := selectTool lowerQuery in
  mkPlan toolName reasoning (generateInput toolName query lowerQuery).
End Fallback.

(** [this.hasValidAPI], as the conditions of the constructor read it;
    [key] is [process.env.OPENAI_API_KEY], absent or a string. *)
Definition hasValidAPI (key : option jsstring) : bool :=
  match key with
  | None => false
  | Some k =>
      negb (eqs k []) &&
      negb (eqs k (str "your_openai_api_key_here")) &&
      (startsWith k (str "sk-") || startsWith k (str "sk-proj-"))
  end.

End Agent.

(** ** [src/tools/documentTool.js] *)

Module DocumentTool.

(** An entry of the documents directory: its name and what [readFile]
    gives for it ([None] when the read is rejected). *)
Record File : Type := mkFile {
  name : jsstring;
  contents : option jsstring
}.

(** An element of [results]. *)
Record Result : Type := mkResult {
  source : jsstring;
  relevance : nat;
  content : jsstring;
  searchTerms : list jsstring
}.

(** An element of the [results] field of the answer. *)
Record Match : Type := mkMatch {
  matchSource : jsstring;
  matchRelevance : nat;
  matchContent : jsstring
}.

(** The JSON text [_call] returns, by its fields. *)
Inductive Answer : Type :=
| NoDocuments (message query suggestions : jsstring)
| Documents (query : jsstring) (results : list Match).

Definition whitespace : list item := [Plus Space].          (* /\s+/ *)
Definition blankLine : list item :=                          (* /\n\s*\n/ *)
  [Once (Chr 10%N); Star Space; Once (Chr 10%N)].

Definition byRelevance (a b : Result) : Z :=
  (Z.of_nat (relevance b) - Z.of_nat (relevance a))%Z.

Section Search.
Variable toLowerCase : jsstring -> jsstring.

Definition calculateRelevance (content : jsstring) (searchTerms : list jsstring)
  : nat :=
  let words := split whitespace content in
  fold_left
    (fun score term =>
       let matches :=
         length (filter (fun word => includes (toLowerCase word) term) words) in
       score + matches)
    searchTerms 0.

(** The body of the loop over the text files: what one file adds to
    [results].  The name of a directory entry is its own base name. *)
Definition scanFile (searchTerms : list jsstring) (file : File) : list Result :=
  match contents file with
  | None => []
  | Some content =>
      let fileName := name file in
      let relevanceScore :=
        calculateRelevance (toLowerCase content) searchTerms in
      if 0 <? relevanceScore then
        let paragraphs := split blankLine content in
        let relevantParagraphs :=
          firstn 3
            (filter
               (fun paragraph =>
                  existsb (fun term => includes (toLowerCase paragraph) term)
                          searchTerms)
               paragraphs) in
        if 0 <? length relevantParagraphs then
          [mkResult fileName relevanceScore
                    (join [10%N; 10%N] relevantParagraphs) searchTerms]
        else []
      else []
  end.

(** [results] when the loop has ended. *)
Definition collect (query : jsstring) (files : list File) : list Result :=
  let textFiles := filter (fun file => endsWith (name file) (str ".txt")) files in
  let searchTerms := split whitespace (toLowerCase query) in
  flat_map (scanFile searchTerms) textFiles.

Definition topResults (query : jsstring) (files : list File) : list Result :=
  firstn 3 (sort byRelevance (collect query files)).

Definition excerpt (result : Result) : Match :=
  mkMatch (source result) (relevance result)
          (substring0 500 (content result) ++
           (if 500 <? length (content result) then str "..." else [])).

(** [_call({ query })] on a directory whose listing is [files]. *)
Definition _call (query : jsstring) (files : list File) : Answer :=
  let top := topResults query files in
  if length top =? 0 then
    NoDocuments (str "No relevant documents found for your query.") query
                (str "Try using different keywords or broader terms.")
  else Documents query (map excerpt top).
End Search.

End DocumentTool.

(** ** [src/tools/sqliteTool.js] *)

Module SQLiteTool.
Import BashTool.

Definition forbiddenWords : list jsstring :=
  [str "drop"; str "delete"; str "insert"; str "update"; str "alter";
   str "create"].

Section Query.
Variable toLowerCase : jsstring -> jsstring.

(** [executeQuery(query)] followed by [JSON.stringify(results, null, 2)]:
    the text of the rows, or the error of the database. *)
Variable executeQuery : jsstring -> Outcome jsstring.

(** [_call({ query })]; every error is thrown again with a prefix. *)
Definition _call (query : jsstring) : Outcome jsstring :=
  let rethrow message := Thrown (str "Error executing query: " ++ message) in
  let lowerQuery := trim (toLowerCase query) in
  if includes lowerQuery (str "drop") ||
     includes lowerQuery (str "delete") ||
     includes lowerQuery (str "insert") ||
     includes lowerQuery (str "update") ||
     includes lowerQuery (str "alter") ||
     includes lowerQuery (str "create")
  then rethrow (str "Only SELECT queries are allowed for safety")
  else if negb (startsWith lowerQuery (str "select"))
  then rethrow (str "Only SELECT queries are allowed")
  else
    match executeQuery query with
    | Returned results => Returned results
    | Thrown message => rethrow message
    end.
End Query.

End SQLiteTool.

(** ** [src/interface/chatInterface.js] *)

Module ChatInterface.

(** What the callback of [promptUser] does with a line. *)
Inductive Action : Type :=
| Exit
| ShowHelp
| ShowPending
| Clear
| HandleApproval (commandId : jsstring)
| HandleRejection (commandId : jsstring)
| PromptAgain
| ProcessUserInput (input : jsstring).

Section Prompt.
Variable toLowerCase : jsstring -> jsstring.

Definition promptUser (input : jsstring) : Action :=
  let trimmedInput := trim input in
  if eqs (toLowerCase trimmedInput) (str "exit") then Exit
  else if eqs (toLowerCase trimmedInput) (str "help") then ShowHelp
  else if eqs (toLowerCase trimmedInput) (str "pending") then ShowPending
  else if eqs (toLowerCase trimmedInput) (str "clear") then Clear
  else if startsWith trimmedInput (str "approve ")
  then HandleApproval (trim (skipn 8 trimmedInput))
  else if startsWith trimmedInput (str "reject ")
  then HandleRejection (trim (skipn 7 trimmedInput))
  else if eqs trimmedInput [] then PromptAgain
  else ProcessUserInput trimmedInput.
End Prompt.

End ChatInterface.

(* ================================================================== *)
(** * Properties *)
(* ================================================================== *)

Unset Implicit Arguments.

(** ** Strings and patterns *)

Module JSFacts.

Lemma eqs_true_iff (a b : jsstring) : eqs a b = true <-> a = b.
Proof.
  revert b; induction a as [|c a IH]; intros [|d b]; simpl;
    try (split; [discriminate | discriminate]); try tauto.
  rewrite andb_true_iff, N.eqb_eq, IH.
  split; [intros [-> ->]; reflexivity | intros [= -> ->]; auto].
Qed.

Lemma eqs_refl (a : jsstring) : eqs a a = true.
Proof. apply eqs_true_iff; reflexivity. Qed.

Lemma eqs_false_iff (a b : jsstring) : eqs a b = false <-> a <> b.
Proof.
  rewrite <- eqs_true_iff. destruct (eqs a b); split; congruence.
Qed.

Lemma startsWith_iff (s w : jsstring) :
  startsWith s w = true <-> exists rest, s = w ++ rest.
Proof.
  revert s; induction w as [|c w IH]; intros s; simpl.
  - split; [intros _; exists s; reflexivity | reflexivity].
  - destruct s as [|d s].
    + split; [discriminate | intros [rest H]; discriminate].
    + rewrite andb_true_iff, N.eqb_eq, IH. split.
      * intros [-> [rest ->]]. exists rest; reflexivity.
      * intros [rest [= -> ->]]. split; [reflexivity | exists rest; reflexivity].
Qed.

(** [includes] decides the occurrence of [w] as a substring. *)
Lemma includes_iff (s w : jsstring) :
  includes s w = true <-> exists pre post, s = pre ++ w ++ post.
Proof.
  induction s as [|c s IH]; simpl; rewrite orb_true_iff, startsWith_iff.
  - split.
    + intros [[rest H] | H]; [|discriminate].
      exists [], rest; exact H.
    + intros [pre [post H]]. left.
      destruct pre; [exists post; exact H | discriminate].
  - rewrite IH. split.
    + intros [[rest H] | [pre [post H]]].
      * exists [], rest; exact H.
      * exists (c :: pre), post; rewrite H; reflexivity.
    + intros [[|d pre] [post H]].
      * left; exists post; exact H.
      * right; exists pre, post. injection H as _ H; exact H.
Qed.

(** A pattern made of literal characters matches where the text starts
    with them. *)
Lemma matchHere_literal (w s : jsstring) :
  isSome (matchHere (map (fun c => Once (Chr c)) w) s) = startsWith s w.
Proof.
  revert s; induction w as [|c w IH]; intros s; simpl; [reflexivity|].
  destruct s as [|d s]; [reflexivity|].
  rewrite (N.eqb_sym c d). destruct (d =? c)%N; simpl; [|reflexivity].
  rewrite <- IH. destruct (matchHere _ s); reflexivity.
Qed.

Lemma search_literal (w s : jsstring) :
  search (map (fun c => Once (Chr c)) w) s = includes s w.
Proof.
  induction s as [|d s IH]; simpl; rewrite matchHere_literal; [reflexivity|].
  rewrite IH; reflexivity.
Qed.

(** An unanchored literal pattern tests for a substring. *)
Lemma test_literal (w : string) (s : jsstring) :
  test (mkRegExp false (chars w)) s = includes s (str w).
Proof. unfold test, chars; simpl. apply search_literal. Qed.

(** *** The matcher against the language of a pattern *)

Lemma matchStar_sound (a : atom) (re : list item) :
  (forall s n, matchHere re s = Some n -> n <= length s /\ Lang re (firstn n s)) ->
  forall s n, matchStar a (matchHere re) s = Some n ->
              n <= length s /\ Lang (Star a :: re) (firstn n s).
Proof.
  intros IH. induction s as [|c s IHs]; intros n H; simpl in H.
  - destruct (IH _ _ H) as [Hn Hl]. split; [exact Hn|].
    apply Lang_star_stop; exact Hl.
  - destruct (accepts a c) eqn:Ha.
    + destruct (matchStar a (matchHere re) s) as [m|] eqn:Hm.
      * injection H as <-. destruct (IHs m eq_refl) as [Hn Hl].
        split; [simpl; lia|]. simpl. apply Lang_star_more; assumption.
      * destruct (IH _ _ H) as [Hn Hl]. split; [exact Hn|].
        apply Lang_star_stop; exact Hl.
    + destruct (IH _ _ H) as [Hn Hl]. split; [exact Hn|].
      apply Lang_star_stop; exact Hl.
Qed.

(** A successful match consumes a prefix that the pattern describes. *)
Lemma matchHere_sound (re : list item) (s : jsstring) (n : nat) :
  matchHere re s = Some n -> n <= length s /\ Lang re (firstn n s).
Proof.
  revert s n. induction re as [|i re IH]; intros s n H.
  - injection H as <-. split; [lia | constructor].
  - destruct i as [a|a|a].
    + simpl in H. destruct s as [|c s]; [discriminate|].
      destruct (accepts a c) eqn:Ha; [|discriminate].
      destruct (matchHere re s) as [m|] eqn:Hm; [|discriminate].
      injection H as <-. destruct (IH _ _ Hm) as [Hn Hl].
      split; [simpl; lia|]. simpl. constructor; assumption.
    + apply matchStar_sound; assumption.
    + simpl in H. destruct s as [|c s]; [discriminate|].
      destruct (accepts a c) eqn:Ha; [|discriminate].
      destruct (matchStar a (matchHere re) s) as [m|] eqn:Hm; [|discriminate].
      injection H as <-. destruct (matchStar_sound a re IH _ _ Hm) as [Hn Hl].
      split; [simpl; lia|]. simpl. constructor; assumption.
Qed.

Lemma matchStar_stop (a : atom) (k : jsstring -> option nat) (s : jsstring) :
  isSome (k s) = true -> isSome (matchStar a k s) = true.
Proof.
  intros H. destruct s as [|c s]; simpl; [exact H|].
  destruct (accepts a c); [|exact H].
  destruct (matchStar a k s); [reflexivity | exact H].
Qed.

(** Where the text starts with a word of the pattern, the matcher succeeds. *)
Lemma matchHere_complete (re : list item) (w : jsstring) :
  Lang re w -> forall rest, isSome (matchHere re (w ++ rest)) = true.
Proof.
  induction 1 as [|a c re w Ha _ IH|a re w _ IH|a c re w Ha _ IH|a c re w Ha _ IH];
    intros rest.
  - reflexivity.
  - simpl. rewrite Ha. specialize (IH rest).
    destruct (matchHere re (w ++ rest)); [reflexivity | discriminate].
  - apply matchStar_stop, IH.
  - specialize (IH rest). simpl in *. rewrite Ha.
    destruct (matchStar a (matchHere re) (w ++ rest)); [reflexivity | discriminate].
  - specialize (IH rest). simpl in *. rewrite Ha.
    destruct (matchStar a (matchHere re) (w ++ rest)); [reflexivity | discriminate].
Qed.

Lemma matchHere_iff (re : list item) (s : jsstring) :
  isSome (matchHere re s) = true <-> exists w rest, s = w ++ rest /\ Lang re w.
Proof.
  split.
  - destruct (matchHere re s) as [n|] eqn:H; [intros _ | discriminate].
    apply matchHere_sound in H as [_ H].
    exists (firstn n s), (skipn n s). split; [|exact H].
    symmetry; apply firstn_skipn.
  - intros [w [rest [-> H]]]. apply matchHere_complete; exact H.
Qed.

Lemma search_iff (re : list item) (s : jsstring) :
  search re s = true <-> exists pre w rest, s = pre ++ w ++ rest /\ Lang re w.
Proof.
  induction s as [|c s IH]; simpl; rewrite orb_true_iff, matchHere_iff.
  - split.
    + intros [[w [rest [E H]]] | H]; [|discriminate].
      exists [], w, rest. auto.
    + intros [pre [w [rest [E H]]]]. left.
      destruct pre; [|discriminate]. exists w, rest. auto.
  - rewrite IH. split.
    + intros [[w [rest [E H]]] | [pre [w [rest [E H]]]]].
      * exists [], w, rest. auto.
      * exists (c :: pre), w, rest. rewrite E. auto.
    + intros [[|d pre] [w [rest [E H]]]].
      * left. exists w, rest. auto.
      * right. injection E as _ E. exists pre, w, rest. auto.
Qed.

(** [test] holds exactly when a word of the pattern occurs in the text, at
    its start for an anchored pattern and anywhere otherwise. *)
Lemma test_iff (pattern : RegExp) (s : jsstring) :
  test pattern s = true <->
  exists pre w rest,
    s = pre ++ w ++ rest /\ Lang (body pattern) w /\
    (anchored pattern = true -> pre = []).
Proof.
  unfold test. destruct (anchored pattern).
  - rewrite matchHere_iff. split.
    + intros [w [rest [E H]]]. exists [], w, rest. auto.
    + intros [pre [w [rest [E [H Hpre]]]]]. rewrite (Hpre eq_refl) in E.
      exists w, rest. auto.
  - rewrite search_iff. split.
    + intros [pre [w [rest [E H]]]]. exists pre, w, rest.
      split; [exact E|]. split; [exact H | discriminate].
    + intros [pre [w [rest [E [H _]]]]]. exists pre, w, rest. auto.
Qed.

(** *** [split] on the two separators of the sources *)

Example split_words :
  split [Plus Space] (str " supply  and demand ") =
  [[]; str "supply"; str "and"; str "demand"; []].
Proof. reflexivity. Qed.

Example split_empty_text : split [Plus Space] [] = [[]].
Proof. reflexivity. Qed.

(** Lines that hold only white space separate paragraphs, a single line
    break does not. *)
Example split_paragraphs :
  split [Once (Chr 10%N); Star Space; Once (Chr 10%N)]
        (str "one" ++ [10; 32; 10; 10]%N ++ str "two" ++ [10]%N ++ str "more" ++
         [10; 10]%N ++ str "three") =
  [str "one"; str "two" ++ [10%N] ++ str "more"; str "three"].
Proof. reflexivity. Qed.

Lemma find_none_iff {A} (f : A -> bool) (l : list A) :
  find f l = None <-> Forall (fun x => f x = false) l.
Proof.
  induction l as [|x l IH]; simpl.
  - split; [constructor | reflexivity].
  - destruct (f x) eqn:E.
    + split; [discriminate | intros H; inversion H; congruence].
    + rewrite IH. split; [constructor; assumption | intros H; inversion H; assumption].
Qed.

Lemma find_some_iff {A} (f : A -> bool) (l : list A) :
  (exists x, find f l = Some x) <-> Exists (fun x => f x = true) l.
Proof.
  split.
  - intros [x H]. apply find_some in H. apply Exists_exists; eauto.
  - intros H. destruct (find f l) eqn:E; [eauto|].
    apply find_none_iff in E. apply Exists_exists in H as [x [Hin Hx]].
    rewrite Forall_forall in E. specialize (E x Hin). congruence.
Qed.

Lemma existsb_false_iff {A} (f : A -> bool) (l : list A) :
  existsb f l = false <-> Forall (fun x => f x = false) l.
Proof.
  induction l as [|x l IH]; simpl.
  - split; [constructor | reflexivity].
  - rewrite orb_false_iff, IH. split.
    + intros [? ?]; constructor; assumption.
    + intros H; inversion H; auto.
Qed.

End JSFacts.

(** ** Sorting with a comparison function *)

Module SortFacts.

Section Insertion.
Variable A : Type.
Variable comparefn : A -> A -> Z.

(** [x] may stand before [y]. *)
Let before (x y : A) : Prop := (comparefn x y <= 0)%Z.

Lemma insert_perm (x : A) (l : list A) :
  Permutation (insert comparefn x l) (x :: l).
Proof.
  induction l as [|y l IH]; simpl; [reflexivity|].
  destruct (0 <? comparefn x y)%Z; [|reflexivity].
  rewrite IH. apply perm_swap.
Qed.

Lemma sort_perm (l : list A) : Permutation (sort comparefn l) l.
Proof.
  induction l as [|x l IH]; simpl; [reflexivity|].
  rewrite insert_perm, IH. reflexivity.
Qed.

(** Stability: the elements of a class that [comparefn] never orders
    strictly keep their relative order. *)
Lemma filter_insert (p : A -> bool) (x : A) (l : list A) :
  (forall y, p x = true -> p y = true -> (0 <? comparefn x y)%Z = false) ->
  filter p (insert comparefn x l) = filter p (x :: l).
Proof.
  intros Hclass. induction l as [|y l IH]; [reflexivity|].
  simpl insert. destruct (0 <? comparefn x y)%Z eqn:E; [|reflexivity].
  simpl in *. rewrite IH.
  destruct (p x) eqn:Hx; [|reflexivity].
  destruct (p y) eqn:Hy; [|reflexivity].
  rewrite (Hclass y eq_refl Hy) in E. discriminate E.
Qed.

Lemma filter_sort (p : A -> bool) (l : list A) :
  (forall x y, p x = true -> p y = true -> (0 <? comparefn x y)%Z = false) ->
  filter p (sort comparefn l) = filter p l.
Proof.
  intros Hclass. induction l as [|x l IH]; [reflexivity|].
  simpl sort. rewrite filter_insert by (apply Hclass).
  simpl. rewrite IH. reflexivity.
Qed.

Hypothesis before_trans : forall x y z, before x y -> before y z -> before x z.
Hypothesis before_total : forall x y, (0 < comparefn x y)%Z -> before y x.

Lemma insert_sorted (x : A) (l : list A) :
  StronglySorted before l -> StronglySorted before (insert comparefn x l).
Proof.
  induction 1 as [|y l Hsorted IH Hall]; simpl.
  - constructor; constructor.
  - destruct (0 <? comparefn x y)%Z eqn:E.
    + apply Z.ltb_lt in E. constructor; [exact IH|].
      rewrite Forall_forall in *. intros z Hz.
      apply (Permutation_in _ (insert_perm x l)) in Hz.
      destruct Hz as [<- | Hz]; [apply before_total; exact E | apply Hall; exact Hz].
    + apply Z.ltb_ge in E. constructor; [constructor; assumption|].
      constructor; [exact E|].
      rewrite Forall_forall in *. intros z Hz.
      apply before_trans with y; [exact E | apply Hall; exact Hz].
Qed.

Lemma sort_sorted (l : list A) : StronglySorted before (sort comparefn l).
Proof.
  induction l as [|x l IH]; simpl; [constructor | apply insert_sorted; exact IH].
Qed.
End Insertion.

Lemma StronglySorted_firstn {A} (R : A -> A -> Prop) (n : nat) (l : list A) :
  StronglySorted R l -> StronglySorted R (firstn n l).
Proof.
  intros H. revert n. induction H as [|x l Hs IH Hall]; intros [|n]; simpl;
    try constructor; [apply IH|].
  rewrite Forall_forall in *. intros y Hy. apply Hall.
  rewrite <- (firstn_skipn n l). apply in_or_app. left. exact Hy.
Qed.

(** What a filter keeps of a prefix is a prefix of what it keeps. *)
Lemma filter_firstn {A} (p : A -> bool) (n : nat) (l : list A) :
  exists rest, filter p l = filter p (firstn n l) ++ rest.
Proof.
  exists (filter p (skipn n l)).
  rewrite <- filter_app, firstn_skipn. reflexivity.
Qed.

End SortFacts.

(** ** The command validator *)

Module Validator.
Import BashTool JSFacts.

(** The patterns print as the literals of the source. *)
Example dangerousPatterns_source :
  map toString dangerousPatterns =
  map str [ "/rm\s+-rf/"; "/sudo\s+/"; "/chmod\s+777/"; "/chown\s+/";
            "/passwd/"; "/useradd/"; "/userdel/"; "/groupadd/"; "/groupdel/";
            "/mount/"; "/umount/"; "/fdisk/"; "/mkfs/"; "/dd\s+if=/"; "/nc\s+/";
            "/netcat/"; "/wget\s+.*-O\s+\/dev\/shm/";
            "/curl\s+.*-o\s+\/dev\/shm/"; "/>\s*\/etc\//"; "/>>\s*\/etc\//";
            "/cat\s+>.*\/etc\//"; "/echo\s+.*>\s*\/etc\//" ]%string.
Proof. reflexivity. Qed.

Example safeCommands_source :
  map toString safeCommands =
  map str [ "/^curl\s+/"; "/^wget\s+/"; "/^ping\s+/"; "/^nslookup\s+/";
            "/^dig\s+/"; "/^date/"; "/^uptime/"; "/^whoami/"; "/^pwd/";
            "/^ls\s+/"; "/^cat\s+/"; "/^grep\s+/"; "/^head\s+/"; "/^tail\s+/";
            "/^wc\s+/"; "/^sort\s+/"; "/^uniq\s+/"; "/^cut\s+/"; "/^awk\s+/";
            "/^sed\s+/"; "/^find\s+/"; "/^which\s+/"; "/^whereis\s+/";
            "/^ps\s+/"; "/^top\s*/"; "/^df\s+/"; "/^du\s+/"; "/^free\s*/";
            "/^uname\s*/"; "/^hostname/"; "/^id\s*/"; "/^groups\s*/";
            "/^env\s*/"; "/^printenv\s*/"; "/^history\s*/"; "/^echo\s+[^>]/";
            "/^printf\s+/" ]%string.
Proof. reflexivity. Qed.

Example validate_date : validateCommand (str "date") = mkValidation true None.
Proof. reflexivity. Qed.

Example validate_rm_rf :
  validateCommand (str "rm -rf /tmp") =
  mkValidation false
    (Some (str "Command contains potentially dangerous pattern: /rm\s+-rf/")).
Proof. reflexivity. Qed.

(** A deny match decides the outcome, whatever the allow list says. *)
Lemma validate_denied (command : jsstring) (pattern : RegExp) :
  find (fun p => test p command) dangerousPatterns = Some pattern ->
  validateCommand command = mkValidation false (Some (dangerousReason pattern)).
Proof. intros H. unfold validateCommand. rewrite H. reflexivity. Qed.

Lemma validate_deny_match (command : jsstring) :
  Exists (fun pattern => test pattern command = true) dangerousPatterns ->
  exists pattern,
    find (fun p => test p command) dangerousPatterns = Some pattern /\
    validateCommand command = mkValidation false (Some (dangerousReason pattern)).
Proof.
  intros H. apply find_some_iff in H as [pattern Hfind].
  exists pattern. split; [exact Hfind | apply validate_denied; exact Hfind].
Qed.

(** A literal deny pattern rejects every command in which its text occurs. *)
Lemma validate_deny_literal (w : string) (command : jsstring) :
  In (re [chars w]) dangerousPatterns ->
  (exists pre post, command = pre ++ str w ++ post) ->
  isValid (validateCommand command) = false.
Proof.
  intros Hin H. apply includes_iff in H.
  destruct (validate_deny_match command) as [pattern [_ Hv]].
  - apply Exists_exists. exists (re [chars w]). split; [exact Hin|].
    unfold re. cbn [concat]. rewrite app_nil_r, test_literal. exact H.
  - rewrite Hv. reflexivity.
Qed.

(** C1. Every command that matches at least one deny pattern is rejected
    ([isValid = false]), with the reason of the first deny pattern it
    matches; the allow patterns are not consulted, so a command that also
    matches one of them is rejected all the same. *)
Theorem deny_match_is_authoritative (command : jsstring) :
  Exists (fun pattern => test pattern command = true) dangerousPatterns ->
  isValid (validateCommand command) = false /\
  exists pattern,
    find (fun p => test p command) dangerousPatterns = Some pattern /\
    In pattern dangerousPatterns /\ test pattern command = true /\
    reason (validateCommand command) = Some (dangerousReason pattern).
Proof.
  intros H. destruct (validate_deny_match command H) as [pattern [Hfind Hv]].
  rewrite Hv. split; [reflexivity|].
  exists pattern. destruct (find_some _ _ Hfind) as [Hin Htest]. auto.
Qed.

(** "curl x | sudo sh" starts with an allowed prefix and contains a denied
    pattern: it is rejected. *)
Lemma deny_match_is_authoritative_witness :
  Exists (fun pattern => test pattern (str "curl x | sudo sh") = true) safeCommands /\
  isValid (validateCommand (str "curl x | sudo sh")) = false.
Proof.
  split.
  - apply Exists_cons_hd. reflexivity.
  - apply (deny_match_is_authoritative (str "curl x | sudo sh")).
    apply Exists_cons_tl, Exists_cons_hd. reflexivity.
Defined.

(** C9. A command that matches no deny pattern and no allow pattern is
    rejected with the reason "Command not in the list of allowed safe
    commands" (the reason the specification calls "not in allowed set"). *)
Theorem unmatched_command_is_rejected (command : jsstring) :
  Forall (fun pattern => test pattern command = false) dangerousPatterns ->
  Forall (fun pattern => test pattern command = false) safeCommands ->
  validateCommand command = mkValidation false (Some notSafeReason).
Proof.
  intros Hdeny Hallow. unfold validateCommand.
  apply find_none_iff in Hdeny. rewrite Hdeny.
  apply existsb_false_iff in Hallow. rewrite Hallow. reflexivity.
Qed.

Lemma unmatched_command_is_rejected_witness :
  validateCommand (str "rmdir x") =
  mkValidation false (Some (str "Command not in the list of allowed safe commands")).
Proof.
  apply (unmatched_command_is_rejected (str "rmdir x")).
  - repeat (constructor; [reflexivity|]). constructor.
  - repeat (constructor; [reflexivity|]). constructor.
Defined.

(** C10. The deny patterns are not anchored: every command in which
    "passwd" or "mount" occurs anywhere is rejected; "cat /etc/passwd" is
    rejected although the allow pattern [/^cat\s+/] matches it. *)
Theorem passwd_or_mount_anywhere_is_denied :
  (forall command : jsstring,
      (exists pre post, command = pre ++ str "passwd" ++ post) \/
      (exists pre post, command = pre ++ str "mount" ++ post) ->
      isValid (validateCommand command) = false) /\
  (In (re_start [chars "cat"; ws1]) safeCommands /\
   test (re_start [chars "cat"; ws1]) (str "cat /etc/passwd") = true /\
   isValid (validateCommand (str "cat /etc/passwd")) = false).
Proof.
  split.
  - intros command [H | H].
    + apply (validate_deny_literal "passwd"); [simpl; tauto | exact H].
    + apply (validate_deny_literal "mount"); [simpl; tauto | exact H].
  - split; [simpl; tauto | split; reflexivity].
Qed.

Lemma passwd_or_mount_anywhere_is_denied_witness :
  isValid (validateCommand (str "ls /mnt; umount /mnt")) = false.
Proof.
  apply (proj1 passwd_or_mount_anywhere_is_denied (str "ls /mnt; umount /mnt")).
  right. exists (str "ls /mnt; u"), (str " /mnt"). reflexivity.
Defined.

End Validator.

(** ** The pending-command store *)

Module StoreFacts.
Import BashTool JSFacts.

Section MapFacts.
Variable V : Type.
Implicit Types (m : Map V) (k : jsstring).

Lemma get_delete_same m k : get (delete m k) k = None.
Proof.
  induction m as [|[k' v] m IH]; simpl; [reflexivity|].
  destruct (eqs k' k) eqn:E; simpl; [exact IH|].
  rewrite E. exact IH.
Qed.

Lemma get_delete_other m k k' : k <> k' -> get (delete m k) k' = get m k'.
Proof.
  intros Hne. induction m as [|[k0 v] m IH]; simpl; [reflexivity|].
  destruct (eqs k0 k) eqn:E; simpl.
  - apply eqs_true_iff in E; subst k0.
    apply eqs_false_iff in Hne. rewrite Hne. exact IH.
  - rewrite IH. reflexivity.
Qed.

Lemma get_set_same m k v : get (set m k v) k = Some v.
Proof.
  induction m as [|[k' v'] m IH]; simpl.
  - rewrite eqs_refl; reflexivity.
  - destruct (eqs k' k) eqn:E; simpl.
    + rewrite eqs_refl; reflexivity.
    + rewrite E. exact IH.
Qed.

Lemma get_set_other m k k' v : k <> k' -> get (set m k v) k' = get m k'.
Proof.
  intros Hne. apply eqs_false_iff in Hne.
  induction m as [|[k0 v0] m IH]; simpl.
  - rewrite Hne; reflexivity.
  - destruct (eqs k0 k) eqn:E; simpl.
    + apply eqs_true_iff in E; subst k0. rewrite Hne. reflexivity.
    + rewrite IH. reflexivity.
Qed.

Lemma get_none_iff m k : get m k = None <-> ~ In k (keys m).
Proof.
  induction m as [|[k' v] m IH]; simpl; [tauto|].
  destruct (eqs k' k) eqn:E.
  - apply eqs_true_iff in E. split; [discriminate | tauto].
  - apply eqs_false_iff in E. rewrite IH. tauto.
Qed.

Lemma delete_absent m k : get m k = None -> delete m k = m.
Proof.
  induction m as [|[k' v] m IH]; simpl; [reflexivity|].
  destruct (eqs k' k); simpl; [discriminate|].
  intros H. rewrite (IH H). reflexivity.
Qed.

Lemma keys_delete m k k' : In k' (keys (delete m k)) <-> k' <> k /\ In k' (keys m).
Proof.
  unfold keys, delete. rewrite !in_map_iff. split.
  - intros [[k0 v] [<- H]]. apply filter_In in H as [Hin Hk]. simpl in *.
    apply negb_true_iff, eqs_false_iff in Hk. split; [exact Hk|].
    exists (k0, v); auto.
  - intros [Hne [[k0 v] [<- Hin]]]. exists (k0, v). split; [reflexivity|].
    apply filter_In. split; [exact Hin|]. simpl in *.
    apply negb_true_iff, eqs_false_iff. exact Hne.
Qed.

Lemma keys_set m k v k' : In k' (keys (set m k v)) <-> k' = k \/ In k' (keys m).
Proof.
  induction m as [|[k0 v0] m IH]; simpl; [intuition congruence|].
  destruct (eqs k0 k) eqn:E; simpl.
  - apply eqs_true_iff in E; subst k0. intuition congruence.
  - rewrite IH. intuition congruence.
Qed.

(** At most one entry per key: [set] and [delete] keep the keys distinct. *)
Lemma NoDup_keys_set m k v : NoDup (keys m) -> NoDup (keys (set m k v)).
Proof.
  induction m as [|[k0 v0] m IH]; simpl; intros H.
  - constructor; [intros [] | constructor].
  - inversion H as [|? ? Hnotin Hnd]; subst.
    destruct (eqs k0 k) eqn:E; simpl.
    + apply eqs_true_iff in E; subst k0. constructor; assumption.
    + apply eqs_false_iff in E. constructor; [|apply IH; exact Hnd].
      rewrite keys_set. intros [-> | Hin]; [congruence | contradiction].
Qed.

Lemma NoDup_keys_delete m k : NoDup (keys m) -> NoDup (keys (delete m k)).
Proof.
  induction m as [|[k0 v0] m IH]; simpl; intros H; [constructor|].
  inversion H as [|? ? Hnotin Hnd]; subst.
  destruct (eqs k0 k); simpl; [apply IH; exact Hnd|].
  constructor; [|apply IH; exact Hnd].
  intros Hin. apply keys_delete in Hin. tauto.
Qed.
End MapFacts.

(** *** What each call does when no other call overlaps it *)

Lemma perform_approve (s : Store) (id : jsstring) (settled : ExecResult) :
  perform (Approve id settled) s =
  match get s id with
  | None => (s, Thrown (notFoundOrExecuted id))
  | Some data => (delete s id, approvalOutcome data settled)
  end.
Proof.
  unfold perform, executeApprovedCommand; simpl.
  destruct (get s id) as [data|]; simpl; [|reflexivity].
  destruct settled; reflexivity.
Qed.

Lemma perform_reject (s : Store) (id : jsstring) :
  perform (Reject id) s =
  match get s id with
  | None => (s, Thrown (notFound id))
  | Some data => (delete s id, Returned (command_rejected id (command data)))
  end.
Proof.
  unfold perform, rejectCommand; simpl.
  destruct (get s id) as [data|]; reflexivity.
Qed.

Lemma perform_submit (s : Store) input now random36 date :
  perform (Submit input now random36 date) s =
  match input with
  | SyntaxError =>
      (s, Thrown (str "Invalid input format. Expected JSON with command and description."))
  | Parsed command description =>
      if isValid (validateCommand command) then
        let id := generateCommandId now random36 in
        (set s id (mkPending command description date),
         Returned (formatApprovalRequest id command description))
      else
        (s, Thrown (str "Command rejected: " ++
                    match reason (validateCommand command) with
                    | Some r => r
                    | None => str "undefined"
                    end))
  end.
Proof.
  unfold perform, _call. destruct input as [|command description]; [reflexivity|].
  destruct (isValid (validateCommand command)); reflexivity.
Qed.

(** A call changes the presence of an id only by resolving it or by
    issuing it. *)
Lemma perform_keeps_absent (c : Call) (s : Store) (id : jsstring) :
  ~ mayIssue c id -> get s id = None -> get (fst (perform c s)) id = None.
Proof.
  intros Hissue Habs. destruct c as [input now random36 date | id' settled | id'].
  - rewrite perform_submit. destruct input as [|command description]; [exact Habs|].
    destruct (isValid _); simpl; [|exact Habs].
    rewrite get_set_other; [exact Habs | exact Hissue].
  - rewrite perform_approve. destruct (get s id') eqn:E; simpl; [|exact Habs].
    destruct (jsstring_eq_dec id' id) as [->|Hne].
    + apply get_delete_same.
    + rewrite get_delete_other; assumption.
  - rewrite perform_reject. destruct (get s id') eqn:E; simpl; [|exact Habs].
    destruct (jsstring_eq_dec id' id) as [->|Hne].
    + apply get_delete_same.
    + rewrite get_delete_other; assumption.
Qed.

Lemma performAll_keeps_absent (cs : list Call) (s : Store) (id : jsstring) :
  Forall (fun c => ~ mayIssue c id) cs ->
  get s id = None -> get (fst (performAll cs s)) id = None.
Proof.
  revert s; induction cs as [|c cs IH]; intros s Hcs Habs; simpl; [exact Habs|].
  inversion Hcs as [|? ? Hc Hrest]; subst.
  pose proof (perform_keeps_absent c s id Hc Habs) as H1.
  destruct (perform c s) as [s1 o]. simpl in H1.
  specialize (IH s1 Hrest H1).
  destruct (performAll cs s1) as [s2 os]. exact IH.
Qed.

Lemma perform_NoDup (c : Call) (s : Store) :
  NoDup (keys s) -> NoDup (keys (fst (perform c s))).
Proof.
  intros H. destruct c as [input now random36 date | id settled | id].
  - rewrite perform_submit. destruct input as [|command description]; [exact H|].
    destruct (isValid _); simpl; [|exact H]. apply NoDup_keys_set; exact H.
  - rewrite perform_approve. destruct (get s id); simpl; [|exact H].
    apply NoDup_keys_delete; exact H.
  - rewrite perform_reject. destruct (get s id); simpl; [|exact H].
    apply NoDup_keys_delete; exact H.
Qed.

Lemma performAll_NoDup (cs : list Call) (s : Store) :
  NoDup (keys s) -> NoDup (keys (fst (performAll cs s))).
Proof.
  revert s; induction cs as [|c cs IH]; intros s H; simpl; [exact H|].
  pose proof (perform_NoDup c s H) as H1.
  destruct (perform c s) as [s1 o]. simpl in H1.
  specialize (IH s1 H1). destruct (performAll cs s1) as [s2 os]. exact IH.
Qed.

End StoreFacts.

(** ** Approval and rejection of pending commands *)

Module Approval.
Import BashTool JSFacts StoreFacts.

Example approve_date_succeeds :
  perform (Approve (str "cmd_1") (ExecOk (str "Tue") [])) [(str "cmd_1", date_entry)] =
  ([], Returned (command_result true (str "date") (str "Tue") [])).
Proof. reflexivity. Qed.

Example approve_unknown_id :
  perform (Approve (str "unknown-id") (ExecOk [] [])) [(str "cmd_1", date_entry)] =
  ([(str "cmd_1", date_entry)],
   Thrown (str "Command unknown-id not found or already executed")).
Proof. reflexivity. Qed.

(** C3. For an id that is pending, [executeApprovedCommand] looks the
    entry up, awaits the command and then deletes the entry, once, whether
    the execution succeeded or failed.  Whatever the store has become while
    the command ran, the id is not pending when the call returns or throws. *)
Theorem approve_removes_entry (s : Store) (id : jsstring) (data : PendingCommand) :
  get s id = Some data ->
  (forall settled,
      run (fun _ => settled) (executeApprovedCommand id) s =
      (delete s id, [Got id; Deleted id], approvalOutcome data settled)) /\
  exists k,
    runSync (executeApprovedCommand id) s =
    (s, [Got id], Suspended (command data) k) /\
    forall settled s2,
      runSync (k settled) s2 =
      (delete s2 id, [Deleted id], Settled (approvalOutcome data settled)) /\
      get (delete s2 id) id = None /\
      ~ In id (keys (getPendingCommands (delete s2 id))).
Proof.
  intros Hget. split.
  - intros settled. unfold executeApprovedCommand; simpl. rewrite Hget; simpl.
    destruct settled; reflexivity.
  - unfold executeApprovedCommand; simpl. rewrite Hget; simpl.
    eexists. split; [reflexivity|].
    intros settled s2. split; [destruct settled; reflexivity|].
    split; [apply get_delete_same|].
    apply get_none_iff, get_delete_same.
Qed.

Lemma approve_removes_entry_witness :
  run (fun _ => ExecError (str "timeout")) (executeApprovedCommand (str "cmd_1"))
      [(str "cmd_1", date_entry); (str "cmd_2", date_entry)] =
  ([(str "cmd_2", date_entry)], [Got (str "cmd_1"); Deleted (str "cmd_1")],
   Thrown (str "Command execution failed: timeout")).
Proof.
  apply (proj1 (approve_removes_entry
                  [(str "cmd_1", date_entry); (str "cmd_2", date_entry)]
                  (str "cmd_1") date_entry eq_refl)
               (ExecError (str "timeout"))).
Defined.

(** C4 (as the code has it).  An approval or rejection of an id that is
    not in the store throws the not-found error and leaves the store as it
    is.  Once an id has been approved or rejected, every later approval or
    rejection of it throws that error, whatever calls were made in between,
    as long as none of them is a submission that hands the same id out
    again.  In particular a rejection followed by an approval of the same id
    ends in that error. *)
Theorem resolved_id_is_not_found :
  (forall (s : Store) (id : jsstring) (settled : ExecResult),
      get s id = None ->
      perform (Approve id settled) s = (s, Thrown (notFoundOrExecuted id)) /\
      perform (Reject id) s = (s, Thrown (notFound id))) /\
  (forall (s : Store) (id : jsstring) (first again : Call) (cs : list Call),
      target first = Some id -> target again = Some id ->
      Forall (fun c => ~ mayIssue c id) cs ->
      NotFound again (snd (perform again (fst (performAll (first :: cs) s))))) /\
  (forall (s : Store) (id : jsstring) (settled : ExecResult),
      snd (performAll [Reject id; Approve id settled] s) =
      [snd (perform (Reject id) s); Thrown (notFoundOrExecuted id)]).
Proof.
  assert (Hunknown : forall (s : Store) id settled, get s id = None ->
      perform (Approve id settled) s = (s, Thrown (notFoundOrExecuted id)) /\
      perform (Reject id) s = (s, Thrown (notFound id))).
  { intros s id settled H. rewrite perform_approve, perform_reject, H. auto. }
  assert (Hgone : forall (s : Store) id c, target c = Some id ->
      get (fst (perform c s)) id = None).
  { intros s id c Hc. destruct c as [? ? ? ?|id' settled|id']; simpl in Hc;
      try discriminate; injection Hc as ->.
    - rewrite perform_approve. destruct (get s id) eqn:E; simpl;
        [apply get_delete_same | exact E].
    - rewrite perform_reject. destruct (get s id) eqn:E; simpl;
        [apply get_delete_same | exact E]. }
  split; [exact Hunknown|]. split.
  - intros s id first again cs Hfirst Hagain Hcs.
    assert (Habs : get (fst (performAll (first :: cs) s)) id = None).
    { cbn [performAll]. pose proof (Hgone s id first Hfirst) as H1.
      destruct (perform first s) as [s1 o1]. cbn [fst] in H1.
      pose proof (performAll_keeps_absent cs s1 id Hcs H1) as H2.
      destruct (performAll cs s1) as [s2 os]. exact H2. }
    destruct again as [? ? ? ?|id' settled|id']; simpl in Hagain;
      try discriminate; injection Hagain as ->; unfold NotFound.
    + rewrite (proj1 (Hunknown _ id settled Habs)). reflexivity.
    + rewrite (proj2 (Hunknown _ id (ExecOk [] []) Habs)). reflexivity.
  - intros s id settled. cbn [performAll].
    pose proof (Hgone s id (Reject id) eq_refl) as H1.
    destruct (perform (Reject id) s) as [s1 o1]. cbn [fst snd] in *.
    rewrite (proj1 (Hunknown s1 id settled H1)). reflexivity.
Qed.

(** The entry "cmd_1" is approved, other commands are submitted, approved
    and rejected, and "cmd_1" is then rejected: not found. *)
Lemma resolved_id_is_not_found_witness :
  perform (Approve (str "cmd_9") (ExecOk [] [])) [] =
    ([], Thrown (notFoundOrExecuted (str "cmd_9"))) /\
  NotFound (Reject (str "cmd_1"))
    (snd (perform (Reject (str "cmd_1"))
       (fst (performAll
          [Approve (str "cmd_1") (ExecOk [] []);
           Submit (Parsed (str "uptime") (str "load")) 5 (str "0.abc") 5;
           Reject (str "cmd_5_abc")]
          [(str "cmd_1", date_entry)])))).
Proof.
  split.
  - apply (proj1 resolved_id_is_not_found [] (str "cmd_9") (ExecOk [] []) eq_refl).
  - apply (proj1 (proj2 resolved_id_is_not_found)
             [(str "cmd_1", date_entry)] (str "cmd_1")
             (Approve (str "cmd_1") (ExecOk [] [])) (Reject (str "cmd_1"))
             [Submit (Parsed (str "uptime") (str "load")) 5 (str "0.abc") 5;
              Reject (str "cmd_5_abc")]
             eq_refl eq_refl).
    repeat constructor; simpl; try tauto; discriminate.
Defined.

(** The claim fails on the code without that condition: "cmd_5_abc" is
    approved, a later submission meets the same clock reading and random
    digits and is given the same id, and the next approval of the id runs
    the new command instead of throwing the not-found error. *)
Lemma resolved_id_is_found_again :
  snd (performAll
         [Submit (Parsed (str "date") (str "time")) 5 (str "0.abc") 5;
          Approve (str "cmd_5_abc") (ExecOk (str "Tue") []);
          Submit (Parsed (str "uptime") (str "load")) 5 (str "0.abc") 6;
          Approve (str "cmd_5_abc") (ExecOk (str "up 3 days") [])]
         []) =
  [Returned (formatApprovalRequest (str "cmd_5_abc") (str "date") (str "time"));
   Returned (command_result true (str "date") (str "Tue") []);
   Returned (formatApprovalRequest (str "cmd_5_abc") (str "uptime") (str "load"));
   Returned (command_result true (str "uptime") (str "up 3 days") [])] /\
  ~ NotFound (Approve (str "cmd_5_abc") (ExecOk (str "up 3 days") []))
             (Returned (command_result true (str "uptime") (str "up 3 days") [])).
Proof. split; [reflexivity | discriminate]. Qed.

End Approval.

(** ** Overlapping approval and rejection *)

Module Overlap.
Import BashTool JSFacts StoreFacts.

(** The part of [executeApprovedCommand] that follows the [await]. *)
Local Abbreviation resume id data :=
  (fun settled : ExecResult =>
     match settled with
     | ExecOk stdout stderr =>
         MapDelete id (Return (command_result true (command data) stdout stderr))
     | ExecError message =>
         MapDelete id (Throw (str "Command execution failed: " ++ message))
     end).

Lemma advance_approve (s : Store) (id : jsstring) :
  advance (executeApprovedCommand id) s =
  match get s id with
  | None => (s, Finished (Thrown (notFoundOrExecuted id)))
  | Some data => (s, Waiting (command data) (resume id data))
  end.
Proof.
  unfold advance, executeApprovedCommand; simpl.
  destruct (get s id); reflexivity.
Qed.

Lemma advance_resume (s : Store) (id : jsstring) data settled :
  advance (resume id data settled) s =
  (delete s id, Finished (approvalOutcome data settled)).
Proof. destruct settled; reflexivity. Qed.

Lemma advance_reject (s : Store) (id : jsstring) :
  advance (rejectCommand id) s =
  match get s id with
  | None => (s, Finished (Thrown (notFound id)))
  | Some data =>
      (delete s id, Finished (Returned (command_rejected id (command data))))
  end.
Proof.
  unfold advance, rejectCommand; simpl.
  destruct (get s id); reflexivity.
Qed.

(** Nothing can happen once both calls have ended. *)
Lemma steps_finished (s : Store) o0 o1 es cfg :
  steps (s, [Finished o0; Finished o1]) es = Some cfg ->
  es = [] /\ cfg = (s, [Finished o0; Finished o1]).
Proof.
  destruct es as [|e es]; simpl.
  - intros [= <-]. auto.
  - destruct e as [i|i settled]; destruct i as [|[|[|i]]]; simpl; discriminate.
Qed.

Ltac next_event H e es :=
  destruct es as [|e es]; [discriminate H|];
  destruct e as [[|[|[|?]]]|[|[|[|?]]] ?];
  cbn [steps step nth_error update] in H; try discriminate H.

(** C5 (as the code has it).  An approval and a rejection of the same
    pending id are started once each.  The rejection checks and removes the
    entry in one uninterrupted stretch; the approval looks the entry up,
    awaits the command and removes the entry afterwards.  There are three
    ways the two calls can run, and in each the entry is gone at the end:
    the rejection first (the approval then throws not-found), the approval
    to its end first (the rejection then throws not-found), or the
    rejection while the command runs, in which case both calls find the
    entry and neither throws not-found. *)
Theorem approve_reject_schedules (s : Store) (id : jsstring)
  (data : PendingCommand) (es : list Event) (s' : Store)
  (oa orj : Outcome Response) :
  get s id = Some data ->
  steps (s, [Ready (executeApprovedCommand id); Ready (rejectCommand id)]) es =
    Some (s', [Finished oa; Finished orj]) ->
  s' = delete s id /\ get s' id = None /\
  ((es = [Invoke 1; Invoke 0] /\
    orj = Returned (command_rejected id (command data)) /\
    oa = Thrown (notFoundOrExecuted id))
   \/
   (exists settled,
       es = [Invoke 0; ExecSettles 0 settled; Invoke 1] /\
       oa = approvalOutcome data settled /\
       orj = Thrown (notFound id))
   \/
   (exists settled,
       es = [Invoke 0; Invoke 1; ExecSettles 0 settled] /\
       oa = approvalOutcome data settled /\
       orj = Returned (command_rejected id (command data)))).
Proof.
  intros Hget H.
  assert (Hgone : get (delete s id) id = None) by apply get_delete_same.
  assert (Hidem : delete (delete s id) id = delete s id)
    by (apply delete_absent; exact Hgone).
  next_event H e1 es.
  - (* the approval starts first *)
    rewrite advance_approve, Hget in H.
    next_event H e2 es.
    + (* the rejection runs during the await *)
      rewrite advance_reject, Hget in H.
      next_event H e3 es.
      rewrite advance_resume in H.
      apply steps_finished in H as [-> [= -> -> ->]].
      rewrite Hidem. split; [reflexivity|]. split; [exact Hgone|].
      right; right. eexists; eauto.
    + (* the command settles before the rejection starts *)
      rewrite advance_resume in H.
      next_event H e3 es.
      rewrite advance_reject, Hgone in H.
      apply steps_finished in H as [-> [= -> -> ->]].
      split; [reflexivity|]. split; [exact Hgone|].
      right; left. eexists; eauto.
  - (* the rejection runs first *)
    rewrite advance_reject, Hget in H.
    next_event H e2 es.
    rewrite advance_approve, Hgone in H.
    apply steps_finished in H as [-> [= -> -> ->]].
    split; [reflexivity|]. split; [exact Hgone|].
    left. auto.
Qed.

(** The rejection arrives while the approved command is running. *)
Lemma approve_reject_schedules_witness :
  [] = delete one_pending (str "cmd_1") /\ get (V:=PendingCommand) [] (str "cmd_1") = None.
Proof.
  destruct (approve_reject_schedules one_pending (str "cmd_1") date_entry
              [Invoke 0; Invoke 1; ExecSettles 0 (ExecOk (str "Tue") [])]
              []
              (Returned (command_result true (str "date") (str "Tue") []))
              (Returned (command_rejected (str "cmd_1") (str "date")))
              eq_refl eq_refl)
    as [Hstore [Hgone _]].
  split; [exact Hstore | exact Hgone].
Defined.

(** The claim fails on the code: with the rejection arriving while the
    approved command runs, the approval returns its result, the rejection
    returns the rejected command, and neither call throws not-found. *)
Lemma approve_and_reject_both_succeed :
  steps (one_pending,
         [Ready (executeApprovedCommand (str "cmd_1"));
          Ready (rejectCommand (str "cmd_1"))])
        [Invoke 0; Invoke 1; ExecSettles 0 (ExecOk (str "Tue") [])] =
  Some ([],
        [Finished (Returned (command_result true (str "date") (str "Tue") []));
         Finished (Returned (command_rejected (str "cmd_1") (str "date")))]).
Proof. reflexivity. Qed.

End Overlap.

(** ** Command ids *)

Module Ids.
Import BashTool JSFacts StoreFacts.

Example generateCommandId_sample :
  generateCommandId 1700000000123 (str "0.4fzyo82mvyr") =
  str "cmd_1700000000123_4fzyo82mv".
Proof. reflexivity. Qed.

(** A random number whose base-36 text is short gives a short suffix. *)
Example generateCommandId_short :
  generateCommandId 0 (str "0.i") = str "cmd_0_i" /\
  generateCommandId 0 (str "0") = str "cmd_0_".
Proof. split; reflexivity. Qed.

Lemma N_of_ascii_inj (a b : ascii) : N_of_ascii a = N_of_ascii b -> a = b.
Proof.
  intros H. rewrite <- (ascii_N_embedding a), <- (ascii_N_embedding b), H.
  reflexivity.
Qed.

Lemma str_inj (a b : string) : str a = str b -> a = b.
Proof.
  unfold str. intros H.
  rewrite <- (string_of_list_ascii_of_string a),
          <- (string_of_list_ascii_of_string b).
  f_equal. revert H. generalize (list_ascii_of_string a) (list_ascii_of_string b).
  induction l as [|x l IH]; intros [|y l']; simpl; try discriminate; [reflexivity|].
  intros [= Hx Hl]. f_equal; [apply N_of_ascii_inj; exact Hx | apply IH; exact Hl].
Qed.

Lemma numberToString_inj (a b : Z) : numberToString a = numberToString b -> a = b.
Proof.
  unfold numberToString. intros H. apply str_inj in H.
  apply DecimalZ.to_int_inj.
  pose proof (NilEmpty.isi (Z.to_int a)) as Ha.
  pose proof (NilEmpty.isi (Z.to_int b)) as Hb.
  rewrite H in Ha. congruence.
Qed.

(** The decimal text of a number holds no underscore. *)
Lemma string_of_uint_no_underscore (d : Decimal.uint) :
  ~ In (chr "_") (str (NilEmpty.string_of_uint d)).
Proof.
  induction d; simpl; intros H; try contradiction;
    destruct H as [H | H]; try discriminate H; auto.
Qed.

Lemma numberToString_no_underscore (z : Z) : ~ In (chr "_") (numberToString z).
Proof.
  unfold numberToString. destruct (Z.to_int z) as [d|d]; simpl.
  - apply string_of_uint_no_underscore.
  - intros [H | H]; [discriminate H|].
    revert H. apply string_of_uint_no_underscore.
Qed.

(** Two texts cut at the first occurrence of a separator. *)
Lemma app_separator_inj (c : N) (a b x y : jsstring) :
  ~ In c a -> ~ In c b -> a ++ c :: x = b ++ c :: y -> a = b /\ x = y.
Proof.
  revert b; induction a as [|d a IH]; intros [|e b] Ha Hb H; simpl in *.
  - injection H as ->. auto.
  - injection H as <- _. tauto.
  - injection H as -> _. tauto.
  - injection H as <- H. destruct (IH b) as [-> ->]; auto.
Qed.

Lemma generateCommandId_eq_iff (now now' : Z) (random36 random36' : jsstring) :
  generateCommandId now random36 = generateCommandId now' random36' <->
  now = now' /\ substr 2 9 random36 = substr 2 9 random36'.
Proof.
  unfold generateCommandId. split.
  - intros H. apply app_inv_head in H.
    change (str "_" ++ ?x) with (chr "_" :: x) in H.
    apply app_separator_inj in H; try apply numberToString_no_underscore.
    destruct H as [H1 H2]. split; [apply numberToString_inj; exact H1 | exact H2].
  - intros [-> ->]. reflexivity.
Qed.

(** C2 (as the code has it).  [generateCommandId] has no counter: the id is
    "cmd_", the clock reading, "_" and at most nine base-36 digits of a
    random number.  Two ids are equal exactly when the clock reading and the
    random digits are the same.  A valid submission returns that id and
    stores its entry under it, in the place of an entry that has the same
    id; after any calls made one after the other the store holds at most one
    entry per id. *)
Theorem generated_ids :
  (forall (now now' : Z) (random36 random36' : jsstring),
      generateCommandId now random36 = generateCommandId now' random36' <->
      now = now' /\ substr 2 9 random36 = substr 2 9 random36') /\
  (forall (s : Store) (command description : jsstring) (now date : Z)
          (random36 : jsstring),
      isValid (validateCommand command) = true ->
      let id := generateCommandId now random36 in
      let s' := set s id (mkPending command description date) in
      perform (Submit (Parsed command description) now random36 date) s =
        (s', Returned (formatApprovalRequest id command description)) /\
      get s' id = Some (mkPending command description date)) /\
  (forall cs : list Call, NoDup (keys (fst (performAll cs [])))).
Proof.
  split; [exact generateCommandId_eq_iff|]. split.
  - intros s command description now date random36 Hvalid id s'.
    rewrite perform_submit, Hvalid. split; [reflexivity|].
    apply get_set_same.
  - intros cs. apply performAll_NoDup. constructor.
Qed.

Lemma generated_ids_witness :
  perform (Submit (Parsed (str "date") (str "get current time"))
                  1700000000123 (str "0.4fzyo82mvyr") 1700000000124) [] =
  ([(str "cmd_1700000000123_4fzyo82mv",
     mkPending (str "date") (str "get current time") 1700000000124)],
   Returned (formatApprovalRequest (str "cmd_1700000000123_4fzyo82mv")
                                   (str "date") (str "get current time"))).
Proof.
  apply (proj1 (proj2 generated_ids) [] (str "date") (str "get current time")
               1700000000123%Z 1700000000124%Z (str "0.4fzyo82mvyr") eq_refl).
Defined.

(** The claim fails on the code: two submissions that read the same clock
    value and draw the same random digits are given the same id, and the
    second entry takes the place of the first. *)
Lemma submissions_share_an_id :
  issuedIds (snd (performAll [first_submission; second_submission] [])) =
    [str "cmd_1700000000123_4fzyo82mv"; str "cmd_1700000000123_4fzyo82mv"] /\
  ~ NoDup (issuedIds (snd (performAll [first_submission; second_submission] []))) /\
  fst (performAll [first_submission; second_submission] []) =
    [(str "cmd_1700000000123_4fzyo82mv",
      mkPending (str "uptime") (str "second") 1700000000123)].
Proof.
  split; [reflexivity|]. split; [|reflexivity].
  intros H. inversion H as [|x l Hnotin _]. apply Hnotin. left. reflexivity.
Qed.

End Ids.

(** ** The keyword fallback *)

Module Router.
Import Agent JSFacts.

Section AnyConversion.
Variable toLowerCase : jsstring -> jsstring.

(** The four groups of keywords, as tests on the lower-cased query. *)
Let timeWords (q : jsstring) : bool :=
  includes q (str "hora") || includes q (str "time") ||
  includes q (str "data") || includes q (str "date").
Let musicWords (q : jsstring) : bool :=
  includes q (str "artista") || includes q (str "album") ||
  includes q musica || includes q (str "music") ||
  includes q (str "track") || includes q (str "venda") ||
  includes q (str "sale").
Let documentWords (q : jsstring) : bool :=
  includes q (str "economia") || includes q (str "economics") ||
  includes q (str "livro") || includes q (str "book") ||
  includes q (str "documento") || includes q (str "document").

(** The groups are tried in order and the first that matches decides;
    a query that matches none goes to the document search. *)
Lemma selectTool_first_match (query : jsstring) :
  let q := toLowerCase query in
  toolName (processWithFallback toLowerCase query) =
  if timeWords q then bash_command
  else if musicWords q then sqlite_database
  else if documentWords q then document_search
  else document_search.
Proof.
  unfold processWithFallback, selectTool, timeWords, musicWords, documentWords.
  cbv zeta.
  repeat match goal with
         | |- context [if ?b then _ else _] => destruct b eqn:?; try reflexivity
         end.
Qed.

Lemma time_words_select_bash (query : jsstring) :
  timeWords (toLowerCase query) = true ->
  processWithFallback toLowerCase query =
  mkPlan bash_command (str "Query about time/date - using bash command")
         (CommandJson (str "date") (str "Get current date and time")).
Proof.
  unfold timeWords, processWithFallback, selectTool. intros ->.
  cbv zeta. simpl. destruct (_ || _); reflexivity.
Qed.

(** Within the database tool, "how many" asks for a count. *)
Lemma how_many_is_a_count (query lowerQuery : jsstring) :
  includes lowerQuery (str "how many") = true ->
  generateInput sqlite_database query lowerQuery =
  Text (str "SELECT COUNT(*) as count FROM Artist").
Proof.
  intros H. unfold generateInput. rewrite H, orb_true_r. reflexivity.
Qed.

Lemma document_search_gets_the_query (query lowerQuery : jsstring) :
  generateInput document_search query lowerQuery = Text query.
Proof. reflexivity. Qed.
(** Whatever the conversion does elsewhere, a query it leaves as "how many
    artists" matches no keyword of the three groups. *)
Lemma how_many_artists_matches_no_group (query : jsstring) :
  toLowerCase query = str "how many artists" ->
  processWithFallback toLowerCase query =
  mkPlan document_search (str "Defaulting to document search") (Text query).
Proof. unfold processWithFallback. intros ->. reflexivity. Qed.
End AnyConversion.

Example route_what_time_is_it :
  processWithFallback toLowerCaseLatin1 (str "what time is it") =
  mkPlan bash_command (str "Query about time/date - using bash command")
         (CommandJson (str "date") (str "Get current date and time")).
Proof. reflexivity. Qed.

Example route_what_is_capitalism :
  processWithFallback toLowerCaseLatin1 (str "what is capitalism") =
  mkPlan document_search (str "Defaulting to document search")
         (Text (str "what is capitalism")).
Proof. reflexivity. Qed.

(** With the Portuguese word the query reaches the database and is
    answered by a count. *)
Example route_quantos_artistas :
  processWithFallback toLowerCaseLatin1 (str "Quantos artistas existem?") =
  mkPlan sqlite_database (str "Query about music data - using SQLite database")
         (Text (str "SELECT COUNT(*) as count FROM Artist")).
Proof. reflexivity. Qed.

Example route_how_many_albums :
  processWithFallback toLowerCaseLatin1 (str "how many albums") =
  mkPlan sqlite_database (str "Query about music data - using SQLite database")
         (Text (str "SELECT COUNT(*) as count FROM Artist")).
Proof. reflexivity. Qed.

(** C6.  The query "how many artists" is sent to the document search with
    the query itself as input, not to the database with a count statement:
    the music group lists "artista" but not "artist", a word the database
    branch of the input generation does test. *)
Theorem fallback_how_many_artists :
  processWithFallback toLowerCaseLatin1 (str "how many artists") =
  mkPlan document_search (str "Defaulting to document search")
         (Text (str "how many artists")).
Proof. reflexivity. Qed.

End Router.

(** ** Document ranking *)

Module Ranking.
Import DocumentTool JSFacts SortFacts.

(** The comparison function orders by relevance, larger first. *)
Lemma byRelevance_le (a b : Result) :
  (byRelevance a b <= 0)%Z <-> relevance b <= relevance a.
Proof. unfold byRelevance. lia. Qed.

Lemma byRelevance_sorted (l : list Result) :
  StronglySorted (fun a b => relevance b <= relevance a) (sort byRelevance l).
Proof.
  assert (H : StronglySorted (fun a b => (byRelevance a b <= 0)%Z)
                             (sort byRelevance l)).
  { apply sort_sorted; unfold byRelevance; intros; lia. }
  induction H as [|x l' Hs IH Hall]; constructor; [exact IH|].
  rewrite Forall_forall in *. intros y Hy. apply byRelevance_le, Hall, Hy.
Qed.

(** Results of one relevance are never ordered strictly. *)
Lemma byRelevance_ties (score : nat) (a b : Result) :
  (relevance a =? score) = true -> (relevance b =? score) = true ->
  (0 <? byRelevance a b)%Z = false.
Proof.
  intros Ha Hb. apply Nat.eqb_eq in Ha, Hb. unfold byRelevance.
  apply Z.ltb_ge. lia.
Qed.

Section AnyConversion.
Variable toLowerCase : jsstring -> jsstring.

Lemma scanFile_positive (terms : list jsstring) (file : File) (r : Result) :
  In r (scanFile toLowerCase terms file) -> 0 < relevance r.
Proof.
  unfold scanFile. destruct (contents file) as [text|]; [|intros []].
  destruct (0 <? calculateRelevance _ _ _) eqn:E; [|intros []].
  apply Nat.ltb_lt in E.
  destruct (0 <? length _); [|intros []].
  intros [<- | []]. exact E.
Qed.

Lemma collect_positive (query : jsstring) (files : list File) :
  Forall (fun r => 0 < relevance r) (collect toLowerCase query files).
Proof.
  apply Forall_forall. intros r Hr. unfold collect in Hr.
  apply in_flat_map in Hr as [file [_ Hr]].
  revert Hr. apply scanFile_positive.
Qed.

(** Each file adds at most one result, named after the file; [collect]
    lists the results in the order of the directory listing. *)
Lemma scanFile_source (terms : list jsstring) (file : File) (r : Result) :
  In r (scanFile toLowerCase terms file) ->
  scanFile toLowerCase terms file = [r] /\ source r = name file.
Proof.
  unfold scanFile. destruct (contents file) as [text|]; [|intros []].
  destruct (0 <? calculateRelevance _ _ _); [|intros []].
  destruct (0 <? length _); [|intros []].
  intros [<- | []]. auto.
Qed.

Lemma collect_sources (query : jsstring) (files : list File) :
  map source (collect toLowerCase query files) =
  map name
    (filter
       (fun file =>
          endsWith (name file) (str ".txt") &&
          (0 <? length (scanFile toLowerCase
                          (split whitespace (toLowerCase query)) file)))
       files).
Proof.
  unfold collect. induction files as [|file files IH]; [reflexivity|].
  simpl. destruct (endsWith (name file) (str ".txt")); simpl; [|exact IH].
  rewrite map_app, IH.
  destruct (scanFile toLowerCase _ file) as [|r rs] eqn:E; [reflexivity|].
  destruct (scanFile_source (split whitespace (toLowerCase query)) file r)
    as [Hone Hsrc]; [rewrite E; left; reflexivity|].
  rewrite E in Hone. injection Hone as ->. simpl. rewrite Hsrc. reflexivity.
Qed.


Lemma excerpt_content (result : Result) :
  let shown := matchContent (excerpt result) in
  shown = firstn 500 (content result) ++
          (if 500 <? length (content result) then str "..." else []) /\
  length shown <= 503 /\
  (length (content result) <= 500 -> shown = content result) /\
  (500 < length (content result) -> length shown = 503).
Proof.
  cbv zeta. unfold excerpt, substring0. cbn [matchContent].
  split; [reflexivity|].
  rewrite length_app, length_firstn.
  destruct (500 <? length (content result)) eqn:E.
  - apply Nat.ltb_lt in E. change (length (str "...")) with 3.
    split; [lia|]. split; lia.
  - apply Nat.ltb_ge in E. cbn [length].
    split; [lia|]. split; [|lia].
    intros _. rewrite app_nil_r. apply firstn_all2. exact E.
Qed.

(** C8 (as the code has it).  The excerpt of every returned document is the
    first 500 characters of the joined paragraphs, followed by the marker
    "..." when the joined text is longer than 500 characters: it is at most
    503 characters long, and exactly 503 when the text was cut. *)
Theorem excerpt_at_most_503 (query : jsstring) (files : list File)
  (q : jsstring) (results : list Match) (m : Match) :
  _call toLowerCase query files = Documents q results ->
  In m results ->
  length (matchContent m) <= 503 /\
  exists result,
    In result (topResults toLowerCase query files) /\
    m = excerpt result /\
    matchContent m =
      firstn 500 (content result) ++
      (if 500 <? length (content result) then str "..." else []) /\
    (length (content result) <= 500 -> matchContent m = content result) /\
    (500 < length (content result) -> length (matchContent m) = 503).
Proof.
  unfold _call. destruct (length _ =? 0); [discriminate|].
  intros [= _ <-] Hin. apply in_map_iff in Hin as [result [<- Hin]].
  destruct (excerpt_content result) as [H1 [H2 [H3 H4]]].
  split; [exact H2|]. exists result. auto.
Qed.
End AnyConversion.

Example search_orders_by_relevance :
  _call toLowerCaseLatin1 (str "Price")
    [ mkFile (str "a.txt") (Some (str "the price of a good"));
      mkFile (str "notes.md") (Some (str "price price price"));
      mkFile (str "b.txt") (Some (str "Prices rise; price controls fail"));
      mkFile (str "c.txt") (Some (str "nothing here"));
      mkFile (str "d.txt") None;
      mkFile (str "e.txt") (Some (str "a price")) ] =
  Documents (str "Price")
    [ mkMatch (str "b.txt") 2 (str "Prices rise; price controls fail");
      mkMatch (str "a.txt") 1 (str "the price of a good");
      mkMatch (str "e.txt") 1 (str "a price") ].
Proof. reflexivity. Qed.

Example search_without_match :
  _call toLowerCaseLatin1 (str "tariff")
    [ mkFile (str "a.txt") (Some (str "the price of a good")) ] =
  NoDocuments (str "No relevant documents found for your query.") (str "tariff")
              (str "Try using different keywords or broader terms.").
Proof. reflexivity. Qed.

(** A text of 501 letters is cut to 500 and the marker is added. *)
Lemma excerpt_at_most_503_witness :
  length (repeat 97%N 500 ++ str "...") <= 503.
Proof.
  apply (excerpt_at_most_503 toLowerCaseLatin1 (str "a")
           [mkFile (str "a.txt") (Some (repeat 97%N 501))] (str "a")
           [mkMatch (str "a.txt") 1 (repeat 97%N 500 ++ str "...")]
           (mkMatch (str "a.txt") 1 (repeat 97%N 500 ++ str "..."))).
  - vm_compute. reflexivity.
  - left. reflexivity.
Defined.

(** The claim fails on the code: for a document whose relevant text has
    501 characters the excerpt has 503. *)
Lemma excerpt_longer_than_500 :
  exists m,
    _call toLowerCaseLatin1 (str "a")
          [mkFile (str "a.txt") (Some (repeat 97%N 501))] =
    Documents (str "a") [m] /\
    length (matchContent m) = 503 /\ ~ length (matchContent m) <= 500.
Proof.
  exists (mkMatch (str "a.txt") 1 (repeat 97%N 500 ++ str "...")).
  split; [vm_compute; reflexivity|].
  assert (E : length (matchContent
                (mkMatch (str "a.txt") 1 (repeat 97%N 500 ++ str "..."))) = 503)
    by (vm_compute; reflexivity).
  rewrite E. split; [reflexivity | lia].
Qed.

End Ranking.

(** ** More on the command validator *)

Module ValidatorMore.
Import BashTool JSFacts Validator.

(** A match is kept when text is added after it, and for a pattern
    without anchor also when text is added before it. *)
Lemma test_extend_right (pattern : RegExp) (s t : jsstring) :
  test pattern s = true -> test pattern (s ++ t) = true.
Proof.
  rewrite !test_iff. intros [pre [w [rest [-> [Hw Hpre]]]]].
  exists pre, w, (rest ++ t). rewrite <- !app_assoc. auto.
Qed.

Lemma test_extend_left (pattern : RegExp) (pre s : jsstring) :
  anchored pattern = false -> test pattern s = true ->
  test pattern (pre ++ s) = true.
Proof.
  intros Hfree. rewrite !test_iff. intros [pre' [w [rest [-> [Hw _]]]]].
  exists (pre ++ pre'), w, rest. rewrite <- !app_assoc.
  split; [reflexivity|]. split; [exact Hw | congruence].
Qed.

Lemma dangerousPatterns_unanchored :
  Forall (fun pattern => anchored pattern = false) dangerousPatterns.
Proof. repeat constructor. Qed.

Lemma valid_allow_match (command : jsstring) :
  isValid (validateCommand command) = true ->
  Exists (fun pattern => test pattern command = true) safeCommands.
Proof.
  unfold validateCommand.
  destruct (find (fun p => test p command) dangerousPatterns); [discriminate|].
  destruct (existsb (fun p => test p command) safeCommands) eqn:Hsafe;
    [intros _ | discriminate].
  apply existsb_exists in Hsafe. apply Exists_exists. exact Hsafe.
Qed.

(** X1.  A command is valid exactly when no deny pattern matches it and
    some allow pattern does; a reason is given exactly when it is not. *)
Theorem valid_iff_allowed_and_not_denied (command : jsstring) :
  (isValid (validateCommand command) = true <->
   Forall (fun pattern => test pattern command = false) dangerousPatterns /\
   Exists (fun pattern => test pattern command = true) safeCommands) /\
  (reason (validateCommand command) = None <->
   isValid (validateCommand command) = true).
Proof.
  unfold validateCommand.
  destruct (find (fun p => test p command) dangerousPatterns) as [p|] eqn:Hfind.
  - simpl. split; split; try discriminate.
    intros [Hdeny _]. apply find_none_iff in Hdeny. congruence.
  - apply find_none_iff in Hfind.
    destruct (existsb (fun p => test p command) safeCommands) eqn:Hsafe; simpl.
    + split; [|tauto]. split; [intros _ | reflexivity].
      split; [exact Hfind|].
      apply existsb_exists in Hsafe. apply Exists_exists. exact Hsafe.
    + split; split; try discriminate.
      intros [_ Hallow]. apply existsb_false_iff in Hsafe.
      apply Exists_exists in Hallow as [p [Hin Hp]].
      rewrite Forall_forall in Hsafe. rewrite (Hsafe p Hin) in Hp. discriminate.
Qed.

Lemma valid_iff_allowed_and_not_denied_witness :
  isValid (validateCommand (str "ls -la /tmp")) = true.
Proof.
  apply (proj1 (valid_iff_allowed_and_not_denied (str "ls -la /tmp"))).
  split.
  - repeat (constructor; [reflexivity|]). constructor.
  - do 9 apply Exists_cons_tl. apply Exists_cons_hd. reflexivity.
Defined.

(** X2.  A command that a deny pattern matches stays rejected inside any
    longer command: text put before or after it does not help. *)
Theorem denied_inside_any_text (pre command post : jsstring) :
  Exists (fun pattern => test pattern command = true) dangerousPatterns ->
  isValid (validateCommand (pre ++ command ++ post)) = false.
Proof.
  intros H.
  destruct (validate_deny_match (pre ++ command ++ post)) as [p [_ Hv]].
  - apply Exists_exists in H as [p [Hin Hp]]. apply Exists_exists.
    exists p. split; [exact Hin|].
    apply test_extend_left.
    + pose proof dangerousPatterns_unanchored as Hfree.
      rewrite Forall_forall in Hfree. apply Hfree; exact Hin.
    + apply test_extend_right; exact Hp.
  - rewrite Hv. reflexivity.
Qed.

Lemma denied_inside_any_text_witness :
  isValid (validateCommand (str "echo ok; " ++ str "rm  -rf /" ++ str " # cleanup")) = false.
Proof.
  apply (denied_inside_any_text (str "echo ok; ") (str "rm  -rf /") (str " # cleanup")).
  apply Exists_cons_hd. reflexivity.
Defined.

(** X3.  The allow patterns look at the start of the command only: any
    text may follow a valid command, and the result is still valid unless a
    deny pattern matches the longer command. *)
Theorem valid_command_can_be_continued (command more : jsstring) :
  isValid (validateCommand command) = true ->
  Forall (fun pattern => test pattern (command ++ more) = false) dangerousPatterns ->
  validateCommand (command ++ more) = mkValidation true None.
Proof.
  intros Hvalid Hdeny.
  apply valid_allow_match in Hvalid. rename Hvalid into Hallow.
  unfold validateCommand.
  apply find_none_iff in Hdeny. rewrite Hdeny.
  assert (Hsafe : existsb (fun p => test p (command ++ more)) safeCommands = true).
  { apply existsb_exists. apply Exists_exists in Hallow as [p [Hin Hp]].
    exists p. split; [exact Hin | apply test_extend_right; exact Hp]. }
  rewrite Hsafe. reflexivity.
Qed.

(** A second command chained to "date" passes. *)
Lemma valid_command_can_be_continued_witness :
  validateCommand (str "date" ++ str "; rm -r /home/user") = mkValidation true None.
Proof.
  apply (valid_command_can_be_continued (str "date") (str "; rm -r /home/user")).
  - reflexivity.
  - repeat (constructor; [reflexivity|]). constructor.
Defined.

End ValidatorMore.

(** ** More on the pending-command store *)

Module StoreMore.
Import BashTool JSFacts StoreFacts.

Lemma set_absent (V : Type) (m : Map V) (k : jsstring) (v : V) :
  get m k = None -> set m k v = m ++ [(k, v)].
Proof.
  induction m as [|[k' v'] m IH]; simpl; [reflexivity|].
  destruct (eqs k' k); [discriminate|].
  intros H. rewrite (IH H). reflexivity.
Qed.

Lemma delete_appended (V : Type) (m : Map V) (k : jsstring) (v : V) :
  get m k = None -> delete (m ++ [(k, v)]) k = m.
Proof.
  intros H. unfold delete. rewrite filter_app. simpl.
  rewrite eqs_refl. simpl. rewrite app_nil_r.
  apply (delete_absent _ m k H).
Qed.

Lemma get_appended (V : Type) (m : Map V) (k : jsstring) (v : V) :
  get m k = None -> get (m ++ [(k, v)]) k = Some v.
Proof.
  intros H. rewrite <- (set_absent _ m k v H). apply get_set_same.
Qed.

(** X4.  A valid submission whose id is not in use adds its entry at the
    end of the pending commands, leaves the others as they were, and
    returns the approval request for that id, command and description. *)
Theorem submit_appends_entry (s : Store) (command description : jsstring)
  (now date : Z) (random36 : jsstring) :
  isValid (validateCommand command) = true ->
  get s (generateCommandId now random36) = None ->
  let id := generateCommandId now random36 in
  perform (Submit (Parsed command description) now random36 date) s =
    (s ++ [(id, mkPending command description date)],
     Returned (formatApprovalRequest id command description)) /\
  getPendingCommands (s ++ [(id, mkPending command description date)]) =
    getPendingCommands s ++ [(id, mkPending command description date)] /\
  get (s ++ [(id, mkPending command description date)]) id =
    Some (mkPending command description date).
Proof.
  intros Hvalid Hfresh id. rewrite perform_submit, Hvalid. cbv zeta.
  fold id. rewrite (set_absent _ s id _ Hfresh).
  split; [reflexivity|]. split; [reflexivity|].
  apply get_appended. exact Hfresh.
Qed.

Lemma submit_appends_entry_witness :
  perform (Submit (Parsed (str "uptime") (str "load")) 7 (str "0.k3") 8) one_pending =
  ([(str "cmd_1", date_entry);
    (str "cmd_7_k3", mkPending (str "uptime") (str "load") 8)],
   Returned (formatApprovalRequest (str "cmd_7_k3") (str "uptime") (str "load"))).
Proof.
  apply (submit_appends_entry one_pending (str "uptime") (str "load")
           7%Z 8%Z (str "0.k3") eq_refl eq_refl).
Defined.

(** X5.  A submission that is not accepted changes nothing: input that is
    not JSON throws the format error, and a command that fails validation
    throws "Command rejected: " followed by the reason of the validator,
    which is the reason of a deny pattern or the not-allowed reason. *)
Theorem rejected_submission_changes_nothing (s : Store) (now date : Z)
  (random36 : jsstring) :
  perform (Submit SyntaxError now random36 date) s =
    (s, Thrown (str "Invalid input format. Expected JSON with command and description.")) /\
  forall command description : jsstring,
    isValid (validateCommand command) = false ->
    exists why,
      reason (validateCommand command) = Some why /\
      (why = notSafeReason \/
       exists pattern, In pattern dangerousPatterns /\ why = dangerousReason pattern) /\
      perform (Submit (Parsed command description) now random36 date) s =
        (s, Thrown (str "Command rejected: " ++ why)).
Proof.
  split; [reflexivity|].
  intros command description Hinvalid. rewrite perform_submit, Hinvalid.
  revert Hinvalid. unfold validateCommand.
  destruct (find (fun p => test p command) dangerousPatterns) as [p|] eqn:Hfind.
  - intros _. exists (dangerousReason p). split; [reflexivity|].
    split; [|reflexivity]. right. exists p.
    split; [apply (find_some _ _ Hfind) | reflexivity].
  - destruct (existsb _ safeCommands); simpl; [discriminate|].
    intros _. exists notSafeReason. auto.
Qed.

Lemma rejected_submission_changes_nothing_witness :
  perform (Submit (Parsed (str "sudo reboot") (str "restart")) 7 (str "0.k3") 8)
          one_pending =
  (one_pending,
   Thrown (str "Command rejected: Command contains potentially dangerous pattern: /sudo\s+/")).
Proof.
  destruct (proj2 (rejected_submission_changes_nothing one_pending 7%Z 8%Z (str "0.k3"))
              (str "sudo reboot") (str "restart") eq_refl)
    as [why [Hwhy [_ Hperform]]].
  injection Hwhy as <-. exact Hperform.
Defined.



(** X7.  An approval or a rejection of an id, whatever its outcome, takes
    that id out of the pending commands and nothing else: the other entries
    keep their values and their order. *)
Theorem resolve_leaves_other_entries (s : Store) (c : Call) (id : jsstring) :
  target c = Some id ->
  getPendingCommands (fst (perform c s)) =
    filter (fun entry => negb (eqs (fst entry) id)) (getPendingCommands s) /\
  forall other : jsstring,
    other <> id -> get (fst (perform c s)) other = get s other.
Proof.
  intros Hc.
  assert (Hstore : fst (perform c s) = delete s id).
  { destruct c as [? ? ? ?|id' settled|id']; simpl in Hc; try discriminate;
      injection Hc as ->.
    - rewrite perform_approve. destruct (get s id) eqn:E; simpl; [reflexivity|].
      symmetry. apply delete_absent. exact E.
    - rewrite perform_reject. destruct (get s id) eqn:E; simpl; [reflexivity|].
      symmetry. apply delete_absent. exact E. }
  rewrite Hstore. split; [reflexivity|].
  intros other Hne. apply get_delete_other. congruence.
Qed.

Lemma resolve_leaves_other_entries_witness :
  getPendingCommands
    (fst (perform (Approve (str "b") (ExecError (str "killed")))
            [(str "a", date_entry); (str "b", date_entry); (str "c", date_entry)])) =
  [(str "a", date_entry); (str "c", date_entry)].
Proof.
  apply (proj1 (resolve_leaves_other_entries
                  [(str "a", date_entry); (str "b", date_entry); (str "c", date_entry)]
                  (Approve (str "b") (ExecError (str "killed"))) (str "b") eq_refl)).
Defined.

Lemma allValidated_set (s : Store) (id : jsstring) (data : PendingCommand) :
  allValidated s -> isValid (validateCommand (command data)) = true ->
  allValidated (set s id data).
Proof.
  unfold allValidated. intros Hs Hdata.
  induction s as [|[k v] s IH]; simpl.
  - constructor; [exact Hdata | constructor].
  - inversion Hs as [|? ? Hv Hrest]; subst.
    destruct (eqs k id); constructor; auto.
Qed.

Lemma allValidated_delete (s : Store) (id : jsstring) :
  allValidated s -> allValidated (delete s id).
Proof.
  unfold allValidated, delete. rewrite !Forall_forall.
  intros H entry Hin. apply filter_In in Hin as [Hin _]. apply H; exact Hin.
Qed.

Lemma allValidated_get (s : Store) (id : jsstring) (data : PendingCommand) :
  allValidated s -> get s id = Some data ->
  isValid (validateCommand (command data)) = true.
Proof.
  unfold allValidated. induction s as [|[k v] s IH]; simpl; [discriminate|].
  intros Hs. inversion Hs as [|? ? Hv Hrest]; subst.
  destruct (eqs k id); [intros [= <-]; exact Hv | apply IH; exact Hrest].
Qed.

Lemma perform_allValidated (c : Call) (s : Store) :
  allValidated s -> allValidated (fst (perform c s)).
Proof.
  intros H. destruct c as [input now random36 date | id settled | id].
  - rewrite perform_submit. destruct input as [|command description]; [exact H|].
    destruct (isValid (validateCommand command)) eqn:Hvalid; simpl; [|exact H].
    apply allValidated_set; [exact H | exact Hvalid].
  - rewrite perform_approve. destruct (get s id); simpl; [|exact H].
    apply allValidated_delete; exact H.
  - rewrite perform_reject. destruct (get s id); simpl; [|exact H].
    apply allValidated_delete; exact H.
Qed.

Lemma performAll_allValidated (cs : list Call) (s : Store) :
  allValidated s -> allValidated (fst (performAll cs s)).
Proof.
  revert s; induction cs as [|c cs IH]; intros s H; cbn [performAll]; [exact H|].
  pose proof (perform_allValidated c s H) as H1.
  destruct (perform c s) as [s1 o]. cbn [fst] in H1.
  specialize (IH s1 H1). destruct (performAll cs s1) as [s2 os]. exact IH.
Qed.

(** X8.  Only an approval runs a command, and only a validated one: after
    any calls made on an empty store every pending command has passed
    [validateCommand], the command an approval awaits is the pending one of
    its id, and a submission or a rejection ends without awaiting
    anything. *)
Theorem executed_commands_were_validated (cs : list Call) (id : jsstring) :
  allValidated (fst (performAll cs [])) /\
  (forall (cmd : jsstring) (k : ExecResult -> Task Response)
          (accesses : list Access) (s' : Store),
      runSync (executeApprovedCommand id) (fst (performAll cs [])) =
        (s', accesses, Suspended cmd k) ->
      isValid (validateCommand cmd) = true /\
      exists data, get (fst (performAll cs [])) id = Some data /\ cmd = command data) /\
  (forall (input : Input) (now date : Z) (random36 : jsstring) (s0 : Store),
      exists s1 accesses o,
        runSync (_call input now random36 date) s0 = (s1, accesses, Settled o)) /\
  (forall s0 : Store,
      exists s1 accesses o,
        runSync (rejectCommand id) s0 = (s1, accesses, Settled o)).
Proof.
  assert (Hall : allValidated (fst (performAll cs []))).
  { apply performAll_allValidated. constructor. }
  split; [exact Hall|]. split; [|split].
  - intros cmd k accesses s'. unfold executeApprovedCommand. simpl.
    destruct (get (fst (performAll cs [])) id) as [data|] eqn:Hget; simpl;
      [|discriminate].
    intros [= _ _ <- _]. split; [|exists data; auto].
    apply (allValidated_get _ id data Hall Hget).
  - intros input now date random36 s0. unfold _call.
    destruct input as [|command description]; simpl; [eauto|].
    destruct (isValid (validateCommand command)); simpl; eauto.
  - intros s0. unfold rejectCommand. simpl.
    destruct (get s0 id); simpl; eauto.
Qed.

Lemma executed_commands_were_validated_witness :
  isValid (validateCommand (str "uptime")) = true.
Proof.
  destruct (proj1 (proj2 (executed_commands_were_validated
              [Submit (Parsed (str "uptime") (str "load")) 7 (str "0.k3") 8;
               Submit (Parsed (str "sudo reboot") (str "restart")) 9 (str "0.zz") 9]
              (str "cmd_7_k3")))
              (str "uptime") _ [Got (str "cmd_7_k3")] _ eq_refl) as [H _].
  exact H.
Defined.

End StoreMore.

(** ** The lines typed at the prompt *)

Module PromptFacts.
Import ChatInterface JSFacts.

Lemma trimStart_split (s : jsstring) :
  exists pad, s = pad ++ trimStart s /\ Forall (fun c => isWhiteSpace c = true) pad.
Proof.
  induction s as [|c s [pad [E Hpad]]]; simpl.
  - exists []. split; [reflexivity | constructor].
  - destruct (isWhiteSpace c) eqn:Hc.
    + exists (c :: pad). split; [simpl; congruence | constructor; assumption].
    + exists []. split; [reflexivity | constructor].
Qed.

Lemma trimStart_head (s : jsstring) (c : N) (r : jsstring) :
  trimStart s = c :: r -> isWhiteSpace c = false.
Proof.
  induction s as [|d s IH]; simpl; [discriminate|].
  destruct (isWhiteSpace d) eqn:Hd; [exact IH|].
  intros [= <- _]. exact Hd.
Qed.

Lemma trimStart_idem (s : jsstring) : trimStart (trimStart s) = trimStart s.
Proof.
  destruct (trimStart s) as [|c r] eqn:E; [reflexivity|].
  simpl. rewrite (trimStart_head s c r E). reflexivity.
Qed.

Lemma trimStart_pad (pad s : jsstring) :
  Forall (fun c => isWhiteSpace c = true) pad -> trimStart (pad ++ s) = trimStart s.
Proof.
  induction 1 as [|c pad Hc _ IH]; simpl; [reflexivity|].
  rewrite Hc. exact IH.
Qed.

(** A text that [trimStart] leaves alone is empty or starts with a
    character that is not white space. *)
Lemma trimStart_fixed_head (c : N) (r : jsstring) :
  trimStart (c :: r) = c :: r -> isWhiteSpace c = false.
Proof. apply trimStart_head. Qed.

Lemma trimStart_white_nil (s : jsstring) :
  Forall (fun c => isWhiteSpace c = true) s -> trimStart s = [].
Proof.
  intros H. rewrite <- (app_nil_r s). rewrite trimStart_pad; [reflexivity | exact H].
Qed.

Lemma trimEnd_pad (s pad : jsstring) :
  Forall (fun c => isWhiteSpace c = true) pad -> trimEnd (s ++ pad) = trimEnd s.
Proof.
  intros H. unfold trimEnd. rewrite rev_app_distr, trimStart_pad; [reflexivity|].
  apply Forall_rev. exact H.
Qed.

(** The ends of a trimmed text are not white space. *)
Lemma trim_ends (s : jsstring) :
  trimStart (trim s) = trim s /\ trimStart (rev (trim s)) = rev (trim s).
Proof.
  unfold trim, trimEnd. rewrite rev_involutive, trimStart_idem.
  split; [|reflexivity].
  destruct (trimStart_split (rev (trimStart s))) as [pad [E Hpad]].
  destruct (trimStart (rev (trimStart s))) as [|c z] eqn:Hz; [reflexivity|].
  (* the trimmed text is a prefix of [trimStart s] that is not empty *)
  assert (Hy : trimStart s = rev (c :: z) ++ rev pad).
  { rewrite <- rev_app_distr, <- E, rev_involutive. reflexivity. }
  destruct (rev (c :: z)) as [|d w] eqn:Hw.
  - apply (f_equal (@length N)) in Hw. rewrite length_rev in Hw. discriminate.
  - simpl in Hy. simpl. rewrite (trimStart_head s d _ Hy). reflexivity.
Qed.

Lemma trim_idem (s : jsstring) : trim (trim s) = trim s.
Proof.
  destruct (trim_ends s) as [H1 H2].
  unfold trim at 1. rewrite H1. unfold trimEnd. rewrite H2.
  apply rev_involutive.
Qed.

(** Trimming takes white space off both ends of a text whose own ends are
    not white space. *)
Lemma trim_padded (padL core padR : jsstring) :
  Forall (fun c => isWhiteSpace c = true) padL ->
  Forall (fun c => isWhiteSpace c = true) padR ->
  trim core = core -> core <> [] ->
  trim (padL ++ core ++ padR) = core.
Proof.
  intros HL HR Hcore Hne.
  destruct (trim_ends core) as [H1 H2]. rewrite Hcore in H1, H2.
  unfold trim. rewrite trimStart_pad by exact HL.
  assert (Hstart : trimStart (core ++ padR) = core ++ padR).
  { destruct core as [|c r]; [congruence|]. simpl in *.
    destruct (isWhiteSpace c) eqn:Hc; [|reflexivity].
    exfalso. destruct (trimStart_split r) as [pad [E _]].
    rewrite H1 in E. apply (f_equal (@length N)) in E.
    rewrite length_app in E. simpl in E. lia. }
  rewrite Hstart, trimEnd_pad by exact HR.
  unfold trimEnd. rewrite H2. apply rev_involutive.
Qed.

Lemma eqs_length (a b : jsstring) : eqs a b = true -> length a = length b.
Proof. intros H. apply eqs_true_iff in H. congruence. Qed.

Lemma toLowerCaseLatin1_length (s : jsstring) :
  length (toLowerCaseLatin1 s) = length s.
Proof. apply length_map. Qed.

End PromptFacts.

Module Prompt.
Import ChatInterface JSFacts PromptFacts.

Lemma trimStart_app_fixed (x y : jsstring) :
  x <> [] -> trimStart x = x -> trimStart (x ++ y) = x ++ y.
Proof.
  destruct x as [|c r]; [congruence|]. intros _ H.
  simpl. rewrite (trimStart_head (c :: r) c r H). reflexivity.
Qed.

(** A command word followed by an id is a line that trimming leaves alone. *)
Lemma trim_word_id (word id : jsstring) :
  word <> [] -> trimStart word = word ->
  id <> [] -> trim id = id ->
  trim (word ++ id) = word ++ id.
Proof.
  intros Hword Hstart Hid Htrim.
  destruct (trim_ends id) as [_ Hend]. rewrite Htrim in Hend.
  unfold trim. rewrite (trimStart_app_fixed word id Hword Hstart).
  unfold trimEnd. rewrite rev_app_distr, trimStart_app_fixed.
  - rewrite <- rev_app_distr. apply rev_involutive.
  - intros H. apply (f_equal (@rev N)) in H. rewrite rev_involutive in H.
    exact (Hid H).
  - exact Hend.
Qed.

Section AnyConversion.
Variable toLowerCase : jsstring -> jsstring.

(** A line of more than seven ASCII characters is none of the four
    keywords. *)
Lemma long_line_is_no_keyword (line : jsstring) :
  asciiFaithful toLowerCase ->
  Forall (fun c => (c < 128)%N) line -> 7 < length line ->
  eqs (toLowerCase line) (str "exit") = false /\
  eqs (toLowerCase line) (str "help") = false /\
  eqs (toLowerCase line) (str "pending") = false /\
  eqs (toLowerCase line) (str "clear") = false.
Proof.
  intros Hascii Hline Hlen. rewrite (Hascii line Hline).
  repeat split;
    match goal with
    | |- eqs ?a ?b = false =>
        destruct (eqs a b) eqn:E; [|reflexivity];
        apply eqs_length in E; rewrite toLowerCaseLatin1_length in E;
        simpl in E; lia
    end.
Qed.

Lemma promptUser_word_id (id : jsstring) :
  asciiFaithful toLowerCase ->
  Forall (fun c => (c < 128)%N) id -> id <> [] -> trim id = id ->
  promptUser toLowerCase (str "approve " ++ id) = HandleApproval id /\
  promptUser toLowerCase (str "reject " ++ id) = HandleRejection id.
Proof.
  intros Hascii Hid Hne Htrim.
  assert (Hlen : 0 < length id) by (destruct id; [congruence | simpl; lia]).
  split; unfold promptUser; cbv zeta;
    rewrite trim_word_id by (discriminate || reflexivity || assumption).
  - destruct (long_line_is_no_keyword (str "approve " ++ id) Hascii)
      as [-> [-> [-> ->]]].
    + apply Forall_app. split; [repeat constructor | exact Hid].
    + rewrite length_app. simpl. lia.
    + simpl. rewrite Htrim. reflexivity.
  - destruct (long_line_is_no_keyword (str "reject " ++ id) Hascii)
      as [-> [-> [-> ->]]].
    + apply Forall_app. split; [repeat constructor | exact Hid].
    + rewrite length_app. simpl. lia.
    + simpl. rewrite Htrim. reflexivity.
Qed.

(** The prompt looks at the trimmed line only. *)
Lemma promptUser_trim (input : jsstring) :
  promptUser toLowerCase input = promptUser toLowerCase (trim input).
Proof. unfold promptUser. rewrite trim_idem. reflexivity. Qed.

(** X9.  A line "approve <id>" or "reject <id>", with any white space
    around it, reaches the approval or the rejection handler with exactly
    that id, for every id of ASCII characters that is not empty and has no
    white space at its ends. *)
Theorem typed_id_reaches_handler (id padL padR : jsstring) :
  asciiFaithful toLowerCase ->
  Forall (fun c => (c < 128)%N) id -> id <> [] -> trim id = id ->
  Forall (fun c => isWhiteSpace c = true) padL ->
  Forall (fun c => isWhiteSpace c = true) padR ->
  promptUser toLowerCase (padL ++ (str "approve " ++ id) ++ padR) =
    HandleApproval id /\
  promptUser toLowerCase (padL ++ (str "reject " ++ id) ++ padR) =
    HandleRejection id.
Proof.
  intros Hascii Hid Hne Htrim HL HR.
  assert (Hline : forall word : jsstring,
             word <> [] -> trimStart word = word ->
             promptUser toLowerCase (padL ++ (word ++ id) ++ padR) =
             promptUser toLowerCase (word ++ id)).
  { intros word Hword Hstart.
    rewrite promptUser_trim, trim_padded; try assumption.
    - reflexivity.
    - apply trim_word_id; assumption.
    - destruct word; [congruence | discriminate]. }
  rewrite !Hline by (discriminate || reflexivity).
  apply promptUser_word_id; assumption.
Qed.

(** X10.  The handlers never receive an empty id, nor one with white space
    at its ends: a line handled as an approval or a rejection carries a
    trimmed id of at least one character. *)
Theorem handled_id_is_not_empty (input id : jsstring) :
  promptUser toLowerCase input = HandleApproval id \/
  promptUser toLowerCase input = HandleRejection id ->
  id <> [] /\ trim id = id.
Proof.
  assert (Hrest : forall word rest : jsstring,
             trimStart (rev word) <> rev word ->
             trim input = word ++ rest ->
             trim rest <> [] /\ trim (trim rest) = trim rest).
  { intros word rest Hword Hline. split; [|apply trim_idem].
    destruct (trim_ends input) as [_ Hend]. rewrite Hline in Hend.
    rewrite rev_app_distr in Hend.
    destruct (rev rest) as [|c r] eqn:Hr; [simpl in Hend; contradiction|].
    simpl app in Hend. pose proof (trimStart_head _ _ _ Hend) as Hc.
    (* the last character of [rest] is not white space *)
    destruct (trimStart_split rest) as [pad [E Hpad]].
    destruct (trimStart rest) as [|d y] eqn:Hy.
    - rewrite app_nil_r in E. subst pad.
      apply Forall_rev in Hpad. rewrite Hr in Hpad.
      inversion Hpad as [|? ? Hwhite _]. congruence.
    - unfold trim. rewrite Hy. unfold trimEnd.
      assert (Hrev : rev rest = rev (d :: y) ++ rev pad)
        by (rewrite E, rev_app_distr; reflexivity).
      destruct (rev (d :: y)) as [|c' r'] eqn:Hy'.
      + apply (f_equal (@length N)) in Hy'. rewrite length_rev in Hy'. discriminate.
      + rewrite Hr in Hrev. injection Hrev as <- _.
        simpl. rewrite Hc. intros H.
        apply (f_equal (@length N)) in H. rewrite length_rev in H. discriminate. }
  unfold promptUser. cbv zeta.
  repeat match goal with
         | |- context [if eqs ?a ?b then _ else _] =>
             destruct (eqs a b); [intros [H | H]; discriminate H|]
         end.
  destruct (startsWith (trim input) (str "approve ")) eqn:Ha.
  - intros [[= <-] | H]; [|discriminate H].
    apply startsWith_iff in Ha as [rest Ha]. rewrite Ha.
    apply (Hrest (str "approve ") rest); [discriminate | exact Ha].
  - destruct (startsWith (trim input) (str "reject ")) eqn:Hr.
    + intros [H | [= <-]]; [discriminate H|].
      apply startsWith_iff in Hr as [rest Hr]. rewrite Hr.
      apply (Hrest (str "reject ") rest); [discriminate | exact Hr].
    + destruct (eqs (trim input) []); intros [H | H]; discriminate H.
Qed.
End AnyConversion.

Lemma typed_id_reaches_handler_witness :
  promptUser toLowerCaseLatin1 (str "  " ++ (str "approve " ++ str "cmd_7_k3") ++ [10%N]) =
  HandleApproval (str "cmd_7_k3").
Proof.
  apply (typed_id_reaches_handler toLowerCaseLatin1 (str "cmd_7_k3") (str "  ") [10%N]).
  - intros s _. reflexivity.
  - repeat constructor.
  - discriminate.
  - reflexivity.
  - repeat constructor.
  - repeat constructor.
Defined.

Lemma handled_id_is_not_empty_witness :
  str "cmd_7_k3" <> [] /\ trim (str "cmd_7_k3") = str "cmd_7_k3".
Proof.
  apply (handled_id_is_not_empty toLowerCaseLatin1
           (str " reject   cmd_7_k3 ") (str "cmd_7_k3")).
  right. reflexivity.
Defined.

(** Without an id the words are no commands: the line goes to the agent. *)
Example approve_without_id :
  promptUser toLowerCaseLatin1 (str "approve ") = ProcessUserInput (str "approve").
Proof. reflexivity. Qed.

Example keywords_ignore_case :
  promptUser toLowerCaseLatin1 (str " PENDING ") = ShowPending.
Proof. reflexivity. Qed.

End Prompt.

(** ** The guard of the database tool *)

Module SQLiteFacts.
Import BashTool SQLiteTool JSFacts.

Section AnyDatabase.
Variable toLowerCase : jsstring -> jsstring.
Variable executeQuery : jsstring -> Outcome jsstring.

Lemma forbidden_words_test (lowerQuery : jsstring) :
  includes lowerQuery (str "drop") || includes lowerQuery (str "delete") ||
  includes lowerQuery (str "insert") || includes lowerQuery (str "update") ||
  includes lowerQuery (str "alter") || includes lowerQuery (str "create") =
  existsb (fun word => includes lowerQuery word) forbiddenWords.
Proof. simpl. rewrite orb_false_r, !orb_assoc. reflexivity. Qed.


End AnyDatabase.



End SQLiteFacts.

(** ** What the fallback hands to the tools *)

Module FallbackFacts.
Import BashTool Agent JSFacts StoreFacts.

(** X13.  The agent uses the language model exactly when the API key is
    set and starts with "sk-": the comparison with the placeholder of the
    template and the test for "sk-proj-" never change the result. *)
Theorem hasValidAPI_iff (key : option jsstring) :
  hasValidAPI key = true <-> exists rest, key = Some (str "sk-" ++ rest).
Proof.
  destruct key as [k|]; [|split; [discriminate | intros [rest H]; discriminate]].
  split.
  - unfold hasValidAPI. rewrite !andb_true_iff, orb_true_iff.
    intros [_ [H | H]]; apply startsWith_iff in H as [rest ->].
    + exists rest. reflexivity.
    + exists (str "proj-" ++ rest). reflexivity.
  - intros [rest [= ->]]. reflexivity.
Qed.

Lemma hasValidAPI_iff_witness :
  hasValidAPI (Some (str "sk-" ++ str "proj-abc")) = true.
Proof.
  apply (proj2 (hasValidAPI_iff (Some (str "sk-" ++ str "proj-abc")))).
  exists (str "proj-abc"). reflexivity.
Defined.

Section AnyConversion.
Variable toLowerCase : jsstring -> jsstring.

Lemma fallback_command_case (query : jsstring) :
  toolName (processWithFallback toLowerCase query) = bash_command ->
  toolInput (processWithFallback toLowerCase query) =
    CommandJson (str "date") (str "Get current date and time").
Proof.
  unfold processWithFallback. cbv zeta.
  destruct (selectTool (toLowerCase query)) as [tool why].
  cbn [toolName toolInput]. intros ->. unfold generateInput.
  destruct (_ || _); reflexivity.
Qed.

(** X14.  The fallback never hands text of the query to the shell or to
    the database: the command is always "date", the statement is one of
    four fixed SELECT statements, and only the document search receives
    the query, unchanged. *)
Theorem fallback_inputs_are_fixed (query : jsstring) :
  (toolName (processWithFallback toLowerCase query) = bash_command /\
   toolInput (processWithFallback toLowerCase query) =
     CommandJson (str "date") (str "Get current date and time")) \/
  (toolName (processWithFallback toLowerCase query) = sqlite_database /\
   In (toolInput (processWithFallback toLowerCase query))
      [Text (str "SELECT COUNT(*) as count FROM Artist");
       Text (str "SELECT * FROM Artist LIMIT 10");
       Text (str "SELECT * FROM Album LIMIT 10");
       Text (str "SELECT * FROM Artist LIMIT 5")]) \/
  (toolName (processWithFallback toLowerCase query) = document_search /\
   toolInput (processWithFallback toLowerCase query) = Text query).
Proof.
  unfold processWithFallback. cbv zeta.
  destruct (selectTool (toLowerCase query)) as [tool why] eqn:Hselect.
  cbn [toolName toolInput]. destruct tool.
  - right; left. split; [reflexivity|]. unfold generateInput.
    repeat match goal with
           | |- context [if ?b then _ else _] => destruct b
           end; simpl; tauto.
  - right; right. split; reflexivity.
  - left. split; [reflexivity|]. unfold generateInput.
    destruct (_ || _); reflexivity.
Qed.

(** X16.  The command the fallback proposes is never rejected: for a query
    sent to the shell tool the submission stores "date" as a pending
    command and returns the approval request; nothing is run. *)
Theorem fallback_command_is_accepted (query : jsstring) (s : Store)
  (now date : Z) (random36 : jsstring) :
  toolName (processWithFallback toLowerCase query) = bash_command ->
  exists command description,
    toolInput (processWithFallback toLowerCase query) =
      CommandJson command description /\
    let id := generateCommandId now random36 in
    perform (Submit (Parsed command description) now random36 date) s =
      (set s id (mkPending command description date),
       Returned (formatApprovalRequest id command description)) /\
    get (set s id (mkPending command description date)) id =
      Some (mkPending (str "date") (str "Get current date and time") date).
Proof.
  intros Htool.
  pose proof (fallback_command_case query Htool) as H.
  exists (str "date"), (str "Get current date and time").
  split; [exact H|]. cbv zeta. rewrite perform_submit.
  split; [reflexivity | apply get_set_same].
Qed.
End AnyConversion.

Lemma fallback_command_is_accepted_witness :
  exists command description,
    toolInput (processWithFallback toLowerCaseLatin1 (str "Que horas sao?")) =
      CommandJson command description /\
    perform (Submit (Parsed command description) 7 (str "0.k3") 8) [] =
      ([(str "cmd_7_k3", mkPending command description 8)],
       Returned (formatApprovalRequest (str "cmd_7_k3") command description)) /\
    get [(str "cmd_7_k3", mkPending command description 8)] (str "cmd_7_k3") =
      Some (mkPending (str "date") (str "Get current date and time") 8).
Proof.
  apply (fallback_command_is_accepted toLowerCaseLatin1 (str "Que horas sao?")
           [] 7%Z 8%Z (str "0.k3")).
  reflexivity.
Defined.

End FallbackFacts.

(** ** More on the document search *)

Module RankingMore.
Import DocumentTool JSFacts SortFacts Ranking.

Lemma fold_left_sum {A} (f : A -> nat) (l : list A) (start : nat) :
  fold_left (fun score x => score + f x) l start = start + list_sum (map f l).
Proof.
  revert start; induction l as [|x l IH]; intros start; simpl; [lia|].
  rewrite IH. lia.
Qed.

Lemma includes_empty (s : jsstring) : includes s [] = true.
Proof. destruct s; reflexivity. Qed.

(** The separators of the sources do not match the empty text, so a split
    gives at least one piece. *)
Lemma splitLoop_not_nil (sep : list item) (skip : nat) (piece s : jsstring) :
  splitLoop sep skip piece s <> [].
Proof.
  revert skip piece; induction s as [|c s IH]; intros skip piece; simpl;
    [discriminate|].
  destruct skip; [|apply IH].
  destruct (matchHere sep (c :: s)) as [[|n]|]; try discriminate; try apply IH.
  destruct piece; [apply IH | discriminate].
Qed.

Lemma split_whitespace_not_nil (s : jsstring) : split whitespace s <> [].
Proof. destruct s; [discriminate | apply splitLoop_not_nil]. Qed.

Lemma split_blankLine_not_nil (s : jsstring) : split blankLine s <> [].
Proof. destruct s; [discriminate | apply splitLoop_not_nil]. Qed.

Lemma matchStar_total (a : atom) (s : jsstring) :
  exists n, matchStar a (fun _ => Some 0) s = Some n.
Proof.
  induction s as [|c s [n IH]]; simpl; [eauto|].
  destruct (accepts a c); [rewrite IH|]; eauto.
Qed.

(** A text that is empty or starts with white space has an empty first
    word. *)
Lemma split_leading_whitespace (s : jsstring) :
  s = [] \/ (exists c rest, s = c :: rest /\ isWhiteSpace c = true) ->
  In [] (split whitespace s).
Proof.
  intros [-> | [c [rest [-> Hc]]]]; [left; reflexivity|].
  unfold split, whitespace. simpl. rewrite Hc.
  destruct (matchStar_total Space rest) as [n Hn].
  change (matchHere []) with (fun _ : jsstring => Some 0).
  rewrite Hn. simpl. left. reflexivity.
Qed.

Section AnyConversion.
Variable toLowerCase : jsstring -> jsstring.

(** The number of words of [content] in which [term] occurs. *)
Let occurrences (content term : jsstring) : nat :=
  length (filter (fun word => includes (toLowerCase word) term)
                 (split whitespace content)).

Lemma calculateRelevance_sum (content : jsstring) (terms : list jsstring) :
  calculateRelevance toLowerCase content terms =
  list_sum (map (occurrences content) terms).
Proof. exact (fold_left_sum (occurrences content) terms 0). Qed.

Lemma occurrences_zero (content term : jsstring) :
  occurrences content term = 0 <->
  forall word, In word (split whitespace content) ->
               includes (toLowerCase word) term = false.
Proof.
  unfold occurrences. generalize (split whitespace content) as words.
  induction words as [|w words IH]; simpl.
  - split; [intros _ word [] | reflexivity].
  - destruct (includes (toLowerCase w) term) eqn:E; simpl.
    + split; [discriminate|]. intros H. specialize (H w (or_introl eq_refl)).
      congruence.
    + rewrite IH. split.
      * intros H word [<- | Hin]; [exact E | apply H; exact Hin].
      * intros H word Hin. apply H. right. exact Hin.
Qed.

Lemma calculateRelevance_zero (content : jsstring) (terms : list jsstring) :
  calculateRelevance toLowerCase content terms = 0 <->
  forall term word,
    In term terms -> In word (split whitespace content) ->
    includes (toLowerCase word) term = false.
Proof.
  rewrite calculateRelevance_sum. induction terms as [|t terms IH]; simpl.
  - split; [intros _ term word [] | reflexivity].
  - rewrite Nat.eq_add_0, IH, occurrences_zero. split.
    + intros [H1 H2] term word [<- | Hin] Hw;
        [apply H1; exact Hw | apply (H2 term word Hin Hw)].
    + intros H. split.
      * intros word Hw. apply H; [left; reflexivity | exact Hw].
      * intros term word Hin Hw. apply H; [right; exact Hin | exact Hw].
Qed.

Lemma calculateRelevance_member (content term : jsstring) (terms : list jsstring) :
  In term terms ->
  occurrences content term <= calculateRelevance toLowerCase content terms.
Proof.
  rewrite calculateRelevance_sum. induction terms as [|t terms IH]; simpl;
    [intros []|].
  intros [<- | Hin]; [lia|]. specialize (IH Hin). lia.
Qed.

(** X17.  The relevance of a text is the sum, over the search terms, of the
    number of its words in which the term occurs.  Hence the terms count
    separately (a term given twice counts twice), the relevance is 0 exactly
    when no word contains any term, and it is at most the number of terms
    times the number of words. *)
Theorem relevance_counts_words_per_term (content : jsstring)
  (terms more : list jsstring) :
  calculateRelevance toLowerCase content terms =
    list_sum
      (map (fun term =>
              length (filter (fun word => includes (toLowerCase word) term)
                             (split whitespace content)))
           terms) /\
  calculateRelevance toLowerCase content (terms ++ more) =
    calculateRelevance toLowerCase content terms +
    calculateRelevance toLowerCase content more /\
  (calculateRelevance toLowerCase content terms = 0 <->
   forall term word,
     In term terms -> In word (split whitespace content) ->
     includes (toLowerCase word) term = false) /\
  calculateRelevance toLowerCase content terms <=
    length terms * length (split whitespace content).
Proof.
  split; [|split; [|split]].
  - apply calculateRelevance_sum.
  - rewrite !calculateRelevance_sum, map_app, list_sum_app. reflexivity.
  - apply calculateRelevance_zero.
  - rewrite calculateRelevance_sum. induction terms as [|t terms IH]; simpl; [lia|].
    assert (occurrences content t <= length (split whitespace content))
      by apply filter_length_le.
    lia.
Qed.

Lemma topResults_collected (query : jsstring) (files : list File) (r : Result) :
  In r (topResults toLowerCase query files) ->
  In r (collect toLowerCase query files).
Proof.
  unfold topResults. intros H.
  apply (Permutation_in _ (sort_perm _ byRelevance _)).
  rewrite <- (firstn_skipn 3 (sort byRelevance _)). apply in_or_app. left. exact H.
Qed.

(** X18.  Every result names a file of the listing whose name ends in
    ".txt" and whose text could be read; its relevance is that of the
    lower-cased text, which has a word in which a search term occurs.
    Files of another extension and unreadable files never appear. *)
Theorem results_are_readable_text_files (query : jsstring) (files : list File)
  (r : Result) :
  In r (topResults toLowerCase query files) ->
  exists file text,
    In file files /\ name file = source r /\
    endsWith (name file) (str ".txt") = true /\
    contents file = Some text /\
    relevance r =
      calculateRelevance toLowerCase (toLowerCase text)
                         (split whitespace (toLowerCase query)) /\
    exists term word,
      In term (split whitespace (toLowerCase query)) /\
      In word (split whitespace (toLowerCase text)) /\
      includes (toLowerCase word) term = true.
Proof.
  intros Hr. apply topResults_collected in Hr. unfold collect in Hr.
  apply in_flat_map in Hr as [file [Hfile Hr]].
  apply filter_In in Hfile as [Hin Htxt].
  unfold scanFile in Hr. destruct (contents file) as [text|] eqn:Htext; [|destruct Hr].
  destruct (0 <? calculateRelevance _ _ _) eqn:Hpos; [|destruct Hr].
  destruct (0 <? length _); [|destruct Hr].
  destruct Hr as [<- | []]. cbn [source relevance].
  exists file, text. repeat (split; [assumption || reflexivity|]).
  apply Nat.ltb_lt in Hpos.
  destruct (existsb (fun term =>
              existsb (fun word => includes (toLowerCase word) term)
                      (split whitespace (toLowerCase text)))
              (split whitespace (toLowerCase query))) eqn:E.
  - apply existsb_exists in E as [term [Hterm E]].
    apply existsb_exists in E as [word [Hword E]].
    exists term, word. auto.
  - exfalso. apply Nat.lt_neq in Hpos. apply Hpos. symmetry.
    apply calculateRelevance_zero. intros term word Hterm Hword.
    apply existsb_false_iff in E. rewrite Forall_forall in E.
    specialize (E term Hterm). apply existsb_false_iff in E.
    rewrite Forall_forall in E. apply E. exact Hword.
Qed.

(** X19.  A query that is empty or starts with white space has an empty
    search term, and the empty term occurs in every word: every readable
    ".txt" file is then collected, with a relevance of at least its number
    of words, and the answer is never the no-documents message when there
    is such a file. *)
Theorem empty_term_matches_every_file (query : jsstring) (files : list File)
  (file : File) (text : jsstring) :
  toLowerCase query = [] \/
  (exists c rest, toLowerCase query = c :: rest /\ isWhiteSpace c = true) ->
  In file files -> endsWith (name file) (str ".txt") = true ->
  contents file = Some text ->
  (exists r,
      In r (collect toLowerCase query files) /\ source r = name file /\
      1 <= length (split whitespace (toLowerCase text)) <= relevance r) /\
  exists results, _call toLowerCase query files = Documents query results.
Proof.
  intros Hquery Hin Htxt Htext.
  apply split_leading_whitespace in Hquery.
  set (terms := split whitespace (toLowerCase query)) in *.
  assert (Hwords : 1 <= length (split whitespace (toLowerCase text))).
  { pose proof (split_whitespace_not_nil (toLowerCase text)).
    destruct (split whitespace (toLowerCase text)); [congruence | simpl; lia]. }
  assert (Hscore : length (split whitespace (toLowerCase text)) <=
                   calculateRelevance toLowerCase (toLowerCase text) terms).
  { etransitivity; [|apply (calculateRelevance_member _ [] terms Hquery)].
    unfold occurrences. rewrite forallb_filter_id; [reflexivity|].
    apply forallb_forall. intros word _. apply includes_empty. }
  assert (Hscan : exists r, scanFile toLowerCase terms file = [r] /\
                            source r = name file /\
                            relevance r =
                              calculateRelevance toLowerCase (toLowerCase text) terms).
  { unfold scanFile. rewrite Htext. cbv zeta.
    destruct (0 <? calculateRelevance _ _ _) eqn:Hpos;
      [|apply Nat.ltb_ge in Hpos; lia].
    rewrite forallb_filter_id.
    - pose proof (split_blankLine_not_nil text) as Hpar.
      destruct (split blankLine text) as [|p ps]; [congruence|].
      simpl. eexists. split; [reflexivity|]. split; reflexivity.
    - apply forallb_forall. intros paragraph _. apply existsb_exists.
      exists []. split; [exact Hquery | apply includes_empty]. }
  destruct Hscan as [r [Hscan [Hsource Hrel]]].
  assert (Hcollected : In r (collect toLowerCase query files)).
  { unfold collect. apply in_flat_map. exists file. split.
    - apply filter_In. split; assumption.
    - fold terms. rewrite Hscan. left. reflexivity. }
  split.
  - exists r. split; [exact Hcollected|]. split; [exact Hsource|]. lia.
  - unfold _call, topResults.
    destruct (firstn 3 (sort byRelevance (collect toLowerCase query files)))
      as [|top tops] eqn:Htop; [|simpl; eauto].
    exfalso. apply (f_equal (@length Result)) in Htop.
    rewrite length_firstn in Htop.
    rewrite (Permutation_length (sort_perm _ byRelevance _)) in Htop.
    destruct (collect toLowerCase query files); [destruct Hcollected|].
    simpl in Htop. lia.
Qed.

(** X20.  The answer is the no-documents message, with the query in it,
    exactly when nothing was collected; otherwise it lists the smaller of
    three and the number of collected results, at least one. *)
Theorem answer_lists_up_to_three (query : jsstring) (files : list File) :
  (collect toLowerCase query files = [] ->
   _call toLowerCase query files =
     NoDocuments (str "No relevant documents found for your query.") query
                 (str "Try using different keywords or broader terms.")) /\
  (collect toLowerCase query files <> [] ->
   exists results,
     _call toLowerCase query files = Documents query results /\
     length results = Nat.min 3 (length (collect toLowerCase query files)) /\
     1 <= length results).
Proof.
  unfold _call, topResults. split.
  - intros ->. reflexivity.
  - intros Hne.
    assert (Hlen : length (firstn 3 (sort byRelevance (collect toLowerCase query files))) =
                   Nat.min 3 (length (collect toLowerCase query files))).
    { rewrite length_firstn, (Permutation_length (sort_perm _ byRelevance _)).
      reflexivity. }
    assert (Hpos : 1 <= length (collect toLowerCase query files)).
    { destruct (collect toLowerCase query files); [congruence | simpl; lia]. }
    destruct (length (firstn 3 _) =? 0) eqn:E.
    + apply Nat.eqb_eq in E. lia.
    + eexists. split; [reflexivity|]. rewrite length_map. lia.
Qed.
End AnyConversion.

(** "trade" occurs in two words and "fair" in one: 3. *)
Lemma relevance_counts_words_per_term_witness :
  calculateRelevance toLowerCaseLatin1 (str "free trade and fair trade")
                     ([str "trade"] ++ [str "fair"]) =
  calculateRelevance toLowerCaseLatin1 (str "free trade and fair trade")
                     [str "trade"] +
  calculateRelevance toLowerCaseLatin1 (str "free trade and fair trade")
                     [str "fair"].
Proof.
  apply (proj1 (proj2 (relevance_counts_words_per_term toLowerCaseLatin1
                  (str "free trade and fair trade") [str "trade"] [str "fair"]))).
Defined.

Example relevance_counts_every_word :
  calculateRelevance toLowerCaseLatin1 (str "free trade and fair trade")
                     [str "trade"; str "fair"] = 3.
Proof. reflexivity. Qed.

Lemma results_are_readable_text_files_witness :
  exists file text,
    In file [mkFile (str "a.md") (Some (str "trade")); mkFile (str "b.txt") None;
             mkFile (str "c.txt") (Some (str "free trade"))] /\
    name file = str "c.txt" /\ contents file = Some text.
Proof.
  destruct (results_are_readable_text_files toLowerCaseLatin1 (str "trade")
              [mkFile (str "a.md") (Some (str "trade")); mkFile (str "b.txt") None;
               mkFile (str "c.txt") (Some (str "free trade"))]
              (mkResult (str "c.txt") 1 (str "free trade") [str "trade"]))
    as [file [text [Hin [Hname [_ [Htext _]]]]]].
  - left. reflexivity.
  - exists file, text. auto.
Defined.

Lemma empty_term_matches_every_file_witness :
  exists results,
    _call toLowerCaseLatin1 (str " tariff")
          [mkFile (str "c.txt") (Some (str "free trade"))] =
    Documents (str " tariff") results.
Proof.
  apply (empty_term_matches_every_file toLowerCaseLatin1 (str " tariff")
           [mkFile (str "c.txt") (Some (str "free trade"))]
           (mkFile (str "c.txt") (Some (str "free trade"))) (str "free trade")).
  - right. exists 32%N, (str "tariff"). split; reflexivity.
  - left. reflexivity.
  - reflexivity.
  - reflexivity.
Defined.

Lemma answer_lists_up_to_three_witness :
  _call toLowerCaseLatin1 (str "tariff") [mkFile (str "c.txt") (Some (str "free trade"))] =
  NoDocuments (str "No relevant documents found for your query.") (str "tariff")
              (str "Try using different keywords or broader terms.").
Proof.
  apply (proj1 (answer_lists_up_to_three toLowerCaseLatin1 (str "tariff")
                  [mkFile (str "c.txt") (Some (str "free trade"))])).
  reflexivity.
Defined.

End RankingMore.

(** ** From the approval request back to the store *)

Module RoundTrip.
Import BashTool ChatInterface JSFacts StoreFacts StoreMore PromptFacts Prompt.

Lemma string_of_uint_ascii (d : Decimal.uint) :
  Forall (fun c => (c < 128)%N) (str (NilEmpty.string_of_uint d)).
Proof. induction d; simpl; constructor; try reflexivity; assumption. Qed.

Lemma numberToString_ascii (z : Z) : Forall (fun c => (c < 128)%N) (numberToString z).
Proof.
  unfold numberToString. destruct (Z.to_int z) as [d|d]; simpl.
  - apply string_of_uint_ascii.
  - constructor; [reflexivity | apply string_of_uint_ascii].
Qed.

Lemma trim_fixed (x : jsstring) :
  trimStart x = x -> trimStart (rev x) = rev x -> trim x = x.
Proof.
  intros H1 H2. unfold trim, trimEnd. rewrite H1, H2. apply rev_involutive.
Qed.

Lemma trimStart_not_white (x y : jsstring) (u : N) :
  Forall (fun c => isWhiteSpace c = false) x -> isWhiteSpace u = false ->
  trimStart (x ++ u :: y) = x ++ u :: y.
Proof.
  intros Hx Hu. destruct Hx as [|c r Hc _]; cbn [app trimStart].
  - rewrite Hu. reflexivity.
  - rewrite Hc. reflexivity.
Qed.

(** An id whose random digits are ASCII characters other than white space
    is an ASCII text without white space at its ends. *)
Lemma generateCommandId_typed (now : Z) (random36 : jsstring) :
  Forall (fun c => (c < 128)%N /\ isWhiteSpace c = false) (substr 2 9 random36) ->
  Forall (fun c => (c < 128)%N) (generateCommandId now random36) /\
  generateCommandId now random36 <> [] /\
  trim (generateCommandId now random36) = generateCommandId now random36.
Proof.
  intros Hdigits. unfold generateCommandId.
  generalize dependent (substr 2 9 random36). intros suffix Hdigits.
  generalize (numberToString_ascii now). generalize (numberToString now).
  intros number Hnumber.
  split; [|split].
  - apply Forall_app. split; [repeat constructor|].
    apply Forall_app. split; [exact Hnumber|].
    apply Forall_app. split; [repeat constructor|].
    apply (Forall_impl _ (fun c H => proj1 H) Hdigits).
  - intros H. apply (f_equal (@length N)) in H. rewrite length_app in H.
    cbn [str map list_ascii_of_string length] in H. discriminate H.
  - apply trim_fixed.
    + change (str "cmd_") with (99%N :: str "md_"). reflexivity.
    + change (str "_" ++ suffix) with (95%N :: suffix).
      rewrite app_assoc, rev_app_distr. cbn [rev]. rewrite <- app_assoc.
      cbn [app]. apply trimStart_not_white; [|reflexivity].
      apply Forall_rev. apply (Forall_impl _ (fun c H => proj2 H) Hdigits).
Qed.

Section AnyConversion.
Variable toLowerCase : jsstring -> jsstring.


End AnyConversion.


(** The accepted submissions put their entries under one another. *)
Lemma performAll_submissions (cs : list Call) (ids : list jsstring) (s : Store) :
  map submissionId cs = map Some ids ->
  NoDup (keys s ++ ids) ->
  keys (fst (performAll cs s)) = keys s ++ ids /\
  issuedIds (snd (performAll cs s)) = ids.
Proof.
  revert ids s. induction cs as [|c cs IH]; intros [|id ids] s Hids Hnodup;
    try discriminate.
  - simpl. rewrite app_nil_r. auto.
  - simpl in Hids. injection Hids as Hid Hids.
    assert (Hfresh : get s id = None).
    { apply get_none_iff. intros Hin.
      apply NoDup_remove_2 in Hnodup. apply Hnodup.
      apply in_or_app. left. exact Hin. }
    assert (Hperform : exists request o,
               perform c s = (s ++ [(id, request)], o) /\ issued o = Some id).
    { destruct c as [[|command description] now random36 date| |]; try discriminate.
      simpl in Hid. destruct (isValid (validateCommand command)) eqn:Hvalid;
        [|discriminate].
      injection Hid as Hid. rewrite perform_submit, Hvalid. cbv zeta.
      rewrite Hid, (set_absent _ s id _ Hfresh).
      exists (mkPending command description date). eexists.
      split; reflexivity. }
    destruct Hperform as [request [o [Hperform Hissue]]].
    cbn [performAll]. rewrite Hperform.
    specialize (IH ids (s ++ [(id, request)]) Hids).
    destruct (performAll cs (s ++ [(id, request)])) as [s2 os].
    cbn [fst snd issuedIds] in *. rewrite Hissue.
    unfold keys in *. rewrite map_app in IH. simpl in IH.
    rewrite <- app_assoc in IH. simpl in IH.
    destruct (IH Hnodup) as [Hkeys Hissued].
    split; [exact Hkeys | rewrite Hissued; reflexivity].
Qed.

(** X22.  Accepted submissions with distinct ids, made on an empty store,
    are listed by [getPendingCommands] in the order in which they were
    made, under the ids that were returned. *)
Theorem pending_commands_in_submission_order (cs : list Call) (ids : list jsstring) :
  map submissionId cs = map Some ids -> NoDup ids ->
  keys (getPendingCommands (fst (performAll cs []))) = ids /\
  issuedIds (snd (performAll cs [])) = ids.
Proof.
  intros Hids Hnodup. apply (performAll_submissions cs ids [] Hids Hnodup).
Qed.

Lemma pending_commands_in_submission_order_witness :
  keys (getPendingCommands
          (fst (performAll
                  [Submit (Parsed (str "uptime") (str "load")) 9 (str "0.zz") 9;
                   Submit (Parsed (str "date") (str "time")) 7 (str "0.k3") 8]
                  []))) =
  [str "cmd_9_zz"; str "cmd_7_k3"].
Proof.
  apply (pending_commands_in_submission_order
           [Submit (Parsed (str "uptime") (str "load")) 9 (str "0.zz") 9;
            Submit (Parsed (str "date") (str "time")) 7 (str "0.k3") 8]
           [str "cmd_9_zz"; str "cmd_7_k3"]).
  - reflexivity.
  - repeat constructor; simpl; intuition discriminate.
Defined.

End RoundTrip.
